(** * one-hub: the Codex provider adapter and the parameter merge engine

    A shallow embedding of the Go sources
      - [providers/base]   ApplyCustomParams, removeNestedParam, DeepMergeMap
      - [providers/codex]  base.go, chat.go, responses.go and the OAuth2
                           credential code (Refresh, isNonRetryableError)
    followed by the properties proved about them.

    Go strings are byte sequences and are modelled by [string]; Go maps with
    string keys are modelled by [gmap string _]; channel traffic is modelled
    by the list of items a consumer receives, in order. *)

From Stdlib Require Import ZArith Ascii String List Lia Bool.
From stdpp Require Import gmap strings list fin_maps.

#[local] Set Warnings "-register-all,-clear-no-such-hyp".
#[local] Open Scope string_scope.
#[local] Open Scope list_scope.

(* ===================================================================== *)
(** * Part I: the embedding                                               *)
(* ===================================================================== *)

(** ** Package [strings] of the Go standard library (the functions the
    sources call), on byte strings. *)
Module Strings.

Definition byte (n : N) : ascii := ascii_of_N n.
Definition code (c : ascii) : N := N_of_ascii c.

Fixpoint HasPrefix (s prefix : string) {struct prefix} : bool :=
  match prefix with
  | EmptyString => true
  | String p prefix' =>
      match s with
      | EmptyString => false
      | String c s' => if Ascii.eqb c p then HasPrefix s' prefix' else false
      end
  end.

(** The slice s[n:] (all of s past its end). *)
Fixpoint sliceFrom (n : nat) (s : string) : string :=
  match n, s with
  | S n', String _ s' => sliceFrom n' s'
  | _, _ => s
  end.

(** The slice s[:n]. *)
Fixpoint sliceTo (n : nat) (s : string) : string :=
  match n, s with
  | S n', String c s' => String c (sliceTo n' s')
  | _, _ => EmptyString
  end.

(** [strings.TrimPrefix]: s without the leading prefix, or s itself. *)
Definition TrimPrefix (s prefix : string) : string :=
  if HasPrefix s prefix then sliceFrom (String.length prefix) s else s.

(** [strings.HasSuffix]: len(s) >= len(suffix) && s[len(s)-len(suffix):] == suffix. *)
Definition HasSuffix (s suffix : string) : bool :=
  (String.length suffix <=? String.length s)%nat
  && String.eqb (sliceFrom (String.length s - String.length suffix) s) suffix.

(** White space as [unicode.IsSpace] has it, on the UTF-8 encoding: the six
    ASCII bytes of [asciiSpace], the two-byte encodings of U+0085 and U+00A0,
    and the three-byte encodings of U+1680, U+2000..U+200A, U+2028, U+2029,
    U+202F, U+205F and U+3000.  A byte that starts no such encoding decodes
    to a rune that is not a space (an invalid byte decodes to U+FFFD). *)
Definition asciiSpace (c : ascii) : bool :=
  let n := code c in
  ((9 <=? n) && (n <=? 13) || (n =? 32))%N.

Definition isSpace2 (c d : ascii) : bool :=
  ((code c =? 194) && ((code d =? 133) || (code d =? 160)))%N.

Definition isSpace3 (c d e : ascii) : bool :=
  let '(c, d, e) := (code c, code d, code e) in
  ((c =? 225) && (d =? 154) && (e =? 128)
   || (c =? 226) && (d =? 128)
        && ((128 <=? e) && (e <=? 138) || (e =? 168) || (e =? 169) || (e =? 175))
   || (c =? 226) && (d =? 129) && (e =? 159)
   || (c =? 227) && (d =? 128) && (e =? 128))%N.

(** The bytes after one leading white-space rune, if the bytes start with one. *)
Definition leadingSpace (l : list ascii) : option (list ascii) :=
  match l with
  | c :: l1 =>
      if asciiSpace c then Some l1 else
      match l1 with
      | d :: l2 =>
          if isSpace2 c d then Some l2 else
          match l2 with
          | e :: l3 => if isSpace3 c d e then Some l3 else None
          | [] => None
          end
      | [] => None
      end
  | [] => None
  end.

(** The same for the last rune, on the reversed bytes ([utf8.DecodeLastRune]
    walks back to the nearest rune start, so only the final bytes matter). *)
Definition trailingSpace (r : list ascii) : option (list ascii) :=
  match r with
  | c :: r1 =>
      if asciiSpace c then Some r1 else
      match r1 with
      | d :: r2 =>
          if isSpace2 d c then Some r2 else
          match r2 with
          | e :: r3 => if isSpace3 e d c then Some r3 else None
          | [] => None
          end
      | [] => None
      end
  | [] => None
  end.

Fixpoint trimWith (strip : list ascii → option (list ascii)) (fuel : nat)
    (l : list ascii) : list ascii :=
  match fuel with
  | O => l
  | S fuel' =>
      match strip l with
      | Some l' => trimWith strip fuel' l'
      | None => l
      end
  end.

Definition trimLeft (l : list ascii) : list ascii :=
  trimWith leadingSpace (length l) l.

Definition trimRight (l : list ascii) : list ascii :=
  reverse (trimWith trailingSpace (length l) (reverse l)).

(** [strings.TrimSpace] = TrimRightFunc(TrimLeftFunc(s, IsSpace), IsSpace). *)
Definition TrimSpace (s : string) : string :=
  string_of_list_ascii (trimRight (trimLeft (list_ascii_of_string s))).

Definition lowerByte (c : ascii) : ascii :=
  let n := code c in
  if ((65 <=? n) && (n <=? 90))%N then byte (n + 32) else c.

(** [strings.ToLower] on the ASCII letters.  The sources only compare its
    result with the ASCII role names system, developer and user; no rune
    outside ASCII lowers to a letter of these names, so the comparison is
    the one Go makes. *)
Fixpoint ToLower (s : string) : string :=
  match s with
  | EmptyString => EmptyString
  | String c s' => String (lowerByte c) (ToLower s')
  end.

(** [strings.Join]. *)
Fixpoint Join (elems : list string) (sep : string) : string :=
  match elems with
  | [] => ""
  | [e] => e
  | e :: rest => e +:+ sep +:+ Join rest sep
  end.

(** [strings.Split] for a one-byte separator: the pieces between the
    separators, [cur] being the piece under construction. *)
Fixpoint splitByte (sep : ascii) (cur s : string) : list string :=
  match s with
  | EmptyString => [cur]
  | String c s' =>
      if Ascii.eqb c sep then cur :: splitByte sep "" s'
      else splitByte sep (cur +:+ String c "") s'
  end.

Definition Split (s : string) (sep : ascii) : list string := splitByte sep "" s.

(** [strings.Index]: the position of the first occurrence. *)
Fixpoint Index (s substr : string) : option nat :=
  if HasPrefix s substr then Some 0%nat
  else match s with
       | EmptyString => None
       | String _ s' => S <$> Index s' substr
       end.

(** The loop of [strings.Replace] with n < 0 and a non-empty [old]: copy up
    to the next occurrence, write [new], continue after the occurrence. It
    runs once per non-overlapping occurrence, at most len(s) times. *)
Fixpoint replaceLoop (fuel : nat) (s old new : string) : string :=
  match fuel with
  | O => s
  | S fuel' =>
      match Index s old with
      | None => s
      | Some j =>
          sliceTo j s +:+ new
            +:+ replaceLoop fuel' (sliceFrom (j + String.length old) s) old new
      end
  end.

(** [strings.Replace(s, old, new, -1)] for a non-empty [old]; the sources
    guard the call by [accessToken != ""]. *)
Definition ReplaceAll (s old new : string) : string :=
  if String.eqb old new then s else replaceLoop (String.length s) s old new.

(** s has no white space at either end. *)
Definition trimmed (s : string) : Prop :=
  leadingSpace (list_ascii_of_string s) = None ∧
  trailingSpace (reverse (list_ascii_of_string s)) = None.



End Strings.

(** ** OAuth2 credentials of the Codex provider: [Refresh] and
    [isNonRetryableError]. *)
Module OAuth.
#[local] Open Scope Z_scope.

Record OAuth2Credentials := {
  AccessToken : string;
  RefreshToken : string;
  ClientID : string;
  AccountID : string;
  ExpiresAt : option Z;   (* None: the zero time; Some t: seconds since the epoch *)
  TokenType : string;
  Scopes : list string
}.

Record TokenRefreshResponse := {
  r_IDToken : string;
  r_AccessToken : string;
  r_ExpiresIn : Z;
  r_RefreshToken : string;
  r_TokenType : string;
  r_Scope : string
}.

Record TokenRefreshError := {
  Error : string;
  ErrorDescription : string
}.

Definition nonRetryableErrors : list string :=
  [ "invalid_grant"; "invalid_client"; "unauthorized_client";
    "access_denied"; "unsupported_grant_type"; "invalid_scope" ].

Fixpoint isNonRetryableIn (errorType : string) (es : list string) : bool :=
  match es with
  | [] => false
  | e :: es' => if String.eqb errorType e then true else isNonRetryableIn errorType es'
  end.

Definition isNonRetryableError (errorType : string) : bool :=
  isNonRetryableIn errorType nonRetryableErrors.

(** What one pass of the retry loop meets: the request cannot be built, the
    round trip fails, the body cannot be read, or a response arrives. *)
Inductive Attempt :=
| NewRequestFailed
| SendFailed
| ReadFailed
| Responded (StatusCode : Z) (bodyBytes : string).

(** The world [Refresh] runs in: the token endpoint's answer to each attempt,
    [json.Unmarshal] into the two response types, [extractAccountIDFromJWT],
    and the clock read when an attempt succeeds. *)
Record World := {
  endpoint : nat → Attempt;
  unmarshalError : string → option TokenRefreshError;
  unmarshalResponse : string → option TokenRefreshResponse;
  extractAccountIDFromJWT : string → string;
  now : nat → Z
}.

(** The recorded effects: a backoff sleep (nanoseconds, as time.Duration) and
    the start of an attempt's HTTP work. *)
Inductive Effect :=
| Sleep (d : Z)
| Try (attempt : nat).

Inductive AttemptError :=
| CreateRequestError
| SendRequestError
| ReadResponseError
| RefreshFailed (error description : string)
| StatusError (StatusCode : Z) (bodyBytes : string)
| ParseResponseError.

Inductive RefreshError :=
| EmptyRefreshToken
| NonRetryable (error description : string)
| RetriesExhausted (maxRetries : Z) (lastErr : option AttemptError).

Definition int64 (z : Z) : Z := (z + 2 ^ 63) mod 2 ^ 64 - 2 ^ 63.

Definition Second : Z := 1000000000.

(** backoff := time.Duration(1<<uint(attempt-1)) * time.Second, capped at
    30 s; the shift and the product are int64 operations. *)
Definition backoff (attempt : nat) : Z :=
  let shifted := if (attempt - 1 <? 64)%nat then int64 (2 ^ Z.of_nat (attempt - 1)) else 0 in
  let b := int64 (shifted * Second) in
  if 30 * Second <? b then 30 * Second else b.

Definition StatusOK : Z := 200.

(** The credential update after a successful response. *)
Definition updateCredentials (w : World) (attempt : nat) (c : OAuth2Credentials)
    (tokenResp : TokenRefreshResponse) : OAuth2Credentials :=
  let accountID := extractAccountIDFromJWT w (r_AccessToken tokenResp) in
  {| AccessToken := r_AccessToken tokenResp;
     RefreshToken :=
       if String.eqb (r_RefreshToken tokenResp) "" then RefreshToken c
       else r_RefreshToken tokenResp;
     ClientID := ClientID c;
     AccountID := if String.eqb accountID "" then AccountID c else accountID;
     ExpiresAt :=
       if 0 <? r_ExpiresIn tokenResp
       then Some (now w attempt + r_ExpiresIn tokenResp)
       else ExpiresAt c;
     TokenType :=
       if String.eqb (r_TokenType tokenResp) "" then TokenType c
       else r_TokenType tokenResp;
     Scopes :=
       if String.eqb (r_Scope tokenResp) "" then Scopes c
       else Strings.Split (r_Scope tokenResp) " " |}.

(** The loop [for attempt := 0; attempt <= maxRetries; attempt++]: [fuel] is
    the number of passes left, [attempt] the current loop counter.  Returns
    the credentials, the error (None: success) and the effects in order. *)
Fixpoint refreshLoop (w : World) (maxRetries : Z) (fuel attempt : nat)
    (c : OAuth2Credentials) (lastErr : option AttemptError)
    : OAuth2Credentials * option RefreshError * list Effect :=
  match fuel with
  | O => (c, Some (RetriesExhausted maxRetries lastErr), [])
  | S fuel' =>
      let sleep := if (0 <? attempt)%nat then [Sleep (backoff attempt)] else [] in
      let continue (e : AttemptError) :=
        let '(c', r, tr) := refreshLoop w maxRetries fuel' (S attempt) c (Some e) in
        (c', r, sleep ++ Try attempt :: tr) in
      match endpoint w attempt with
      | NewRequestFailed => continue CreateRequestError
      | SendFailed => continue SendRequestError
      | ReadFailed => continue ReadResponseError
      | Responded StatusCode bodyBytes =>
          if negb (StatusCode =? StatusOK) then
            match unmarshalError w bodyBytes with
            | Some errResp =>
                if isNonRetryableError (Error errResp)
                then (c, Some (NonRetryable (Error errResp) (ErrorDescription errResp)),
                      sleep ++ [Try attempt])
                else continue (RefreshFailed (Error errResp) (ErrorDescription errResp))
            | None => continue (StatusError StatusCode bodyBytes)
            end
          else
            match unmarshalResponse w bodyBytes with
            | None => continue ParseResponseError
            | Some tokenResp =>
                (updateCredentials w attempt c tokenResp, None, sleep ++ [Try attempt])
            end
      end
  end.

(** [(c *OAuth2Credentials) Refresh(ctx, proxyURL, maxRetries)]. *)
Definition Refresh (w : World) (c : OAuth2Credentials) (maxRetries : Z)
    : OAuth2Credentials * option RefreshError * list Effect :=
  if String.eqb (RefreshToken c) "" then (c, Some EmptyRefreshToken, [])
  else refreshLoop w maxRetries (Z.to_nat (maxRetries + 1)) 0%nat c None.

(** An attempt after which the loop goes on to the next pass. *)
Definition retryable (w : World) (a : Attempt) : bool :=
  match a with
  | NewRequestFailed | SendFailed | ReadFailed => true
  | Responded StatusCode bodyBytes =>
      if negb (StatusCode =? StatusOK) then
        match unmarshalError w bodyBytes with
        | Some errResp => negb (isNonRetryableError (Error errResp))
        | None => true
        end
      else
        match unmarshalResponse w bodyBytes with
        | None => true
        | Some _ => false
        end
  end.

Definition tries (tr : list Effect) : list nat :=
  omap (λ e, match e with Try n => Some n | Sleep _ => None end) tr.

Definition sleeps (tr : list Effect) : list Z :=
  omap (λ e, match e with Sleep d => Some d | Try _ => None end) tr.

(** The effects of one pass that reaches its HTTP work: the backoff sleep of
    every pass but the first, then the attempt. *)
Definition pass (attempt : nat) : list Effect :=
  (if (0 <? attempt)%nat then [Sleep (backoff attempt)] else []) ++ [Try attempt].

Definition passes (first n : nat) : list Effect :=
  flat_map pass (seq first n).

(** A sample world: the endpoint answers every attempt with HTTP 400 and the
    error code it is given. *)
Definition rejecting (error : string) : World :=
  {| endpoint := λ _, Responded 400 error;
     unmarshalError := λ body, Some {| Error := body; ErrorDescription := "" |};
     unmarshalResponse := λ _, None;
     extractAccountIDFromJWT := λ _, "";
     now := λ _, 0 |}.

Definition sampleCredentials : OAuth2Credentials :=
  {| AccessToken := "at"; RefreshToken := "rt"; ClientID := ""; AccountID := "";
     ExpiresAt := None; TokenType := ""; Scopes := [] |}.

End OAuth.


(** ** base.go: the credentials of a channel and GetToken *)
Module Token.
Import OAuth.
#[local] Open Scope Z_scope.

(** Points in time are seconds since the epoch, as for [ExpiresAt], and
    spans of time are seconds. *)
Definition Minute : Z := 60.
Definition Hour : Z := 60 * Minute.

(** [(c *OAuth2Credentials) IsExpired()], [clock] being time.Now(). *)
Definition IsExpired (clock : Z) (c : OAuth2Credentials) : bool :=
  match ExpiresAt c with
  | None => true
  | Some expiresAt => expiresAt <? clock + 3 * Minute
  end.

Definition DefaultClientID : string := "pdlLIX2Y72MIl2rhLhTE9VV9bN905kBh".

(** parseCodexConfig: the credentials of the provider for a channel key,
    [None] when they are left nil. [FromJSON] is json.Unmarshal into the
    credentials ([None]: an error), [clock] is time.Now(). *)
Definition parseCodexConfig (w : World) (FromJSON : string → option OAuth2Credentials)
    (clock : Z) (Key : string) : option OAuth2Credentials :=
  if String.eqb Key "" then None
  else
    let key := Strings.TrimSpace Key in
    match FromJSON key with
    | Some creds =>
        let accountID := extractAccountIDFromJWT w (AccessToken creds) in
        Some {| AccessToken := AccessToken creds;
                RefreshToken := RefreshToken creds;
                ClientID :=
                  if String.eqb (ClientID creds) "" then DefaultClientID
                  else ClientID creds;
                AccountID :=
                  if String.eqb (AccountID creds) ""
                     && negb (String.eqb (AccessToken creds) "")
                     && negb (String.eqb accountID "")
                  then accountID else AccountID creds;
                ExpiresAt :=
                  if negb (String.eqb (RefreshToken creds) "")
                  then match ExpiresAt creds with
                       | None => Some (clock + 1 * Hour)
                       | Some expiresAt => Some expiresAt
                       end
                  else ExpiresAt creds;
                TokenType := TokenType creds;
                Scopes := Scopes creds |}
    | None =>
        Some {| AccessToken := key;
                RefreshToken := "";
                ClientID := "";
                AccountID := extractAccountIDFromJWT w key;
                ExpiresAt := None;
                TokenType := "";
                Scopes := [] |}
    end.

Inductive TokenError :=
| CredentialsNotConfigured
| AccessTokenEmpty
| RefreshTokenFailed (err : RefreshError).

(** What a call of GetToken does besides returning: the credentials after
    it, the effects of the refresh, whether the credentials were saved to the
    database, and the entry written to the token cache with its lifetime. *)
Record Outcome := {
  returned : TokenError + string;
  credentials : option OAuth2Credentials;
  effects : list Effect;
  saved : bool;
  cacheWrite : option (string * Z)
}.

(** The lifetime of the cache entry: 55 minutes, or the time until expiry
    when that is positive and shorter. [clock] is the time.Now() of
    time.Until. *)
Definition cacheDuration (clock : Z) (c : OAuth2Credentials) : Z :=
  match ExpiresAt c with
  | Some expiresAt =>
      let timeUntilExpiry := expiresAt - clock in
      if (0 <? timeUntilExpiry) && (timeUntilExpiry <? 55 * Minute)
      then timeUntilExpiry else 55 * Minute
  | None => 55 * Minute
  end.

(** [(p *CodexProvider) GetToken()]. [cachedToken] is what cache.GetCache
    yields for the channel (the empty string on a miss); [clock] and [later]
    are the readings of time.Now() in IsExpired and in time.Until. A failure
    to save the refreshed credentials is only logged. *)
Definition GetToken (w : World) (clock later : Z) (cachedToken : string)
    (Credentials : option OAuth2Credentials) : Outcome :=
  let stop (result : TokenError + string) :=
    {| returned := result; credentials := Credentials; effects := [];
       saved := false; cacheWrite := None |} in
  match Credentials with
  | None => stop (inl CredentialsNotConfigured)
  | Some c =>
      if String.eqb (AccessToken c) "" then stop (inl AccessTokenEmpty)
      else if String.eqb (RefreshToken c) "" then stop (inr (AccessToken c))
      else if negb (String.eqb cachedToken "") then stop (inr cachedToken)
      else if IsExpired clock c then
        match Refresh w c 3 with
        | (c', Some err, tr) =>
            {| returned := inl (RefreshTokenFailed err); credentials := Some c';
               effects := tr; saved := false; cacheWrite := None |}
        | (c', None, tr) =>
            {| returned := inr (AccessToken c'); credentials := Some c';
               effects := tr; saved := true;
               cacheWrite := Some (AccessToken c', cacheDuration later c') |}
        end
      else
        {| returned := inr (AccessToken c); credentials := Some c;
           effects := []; saved := false;
           cacheWrite := Some (AccessToken c, cacheDuration later c) |}
  end.

End Token.
(** ** Package [codex]: wire types, error handling and request headers *)
Module Codex.

(** *** Types of package [types] that the provider reads and writes.
    Only the fields the sources touch are kept. *)

Record Usage := {
  PromptTokens : Z;
  CompletionTokens : Z;
  TotalTokens : Z
}.

Record ResponsesUsage := {
  InputTokens : Z;
  OutputTokens : Z;
  ru_TotalTokens : Z
}.

(** types.OpenAIResponsesResponses: the response object of a stream event. *)
Record OpenAIResponsesResponses := {
  rr_ID : string;
  rr_Status : string;
  rr_Usage : option ResponsesUsage
}.

(** A field of Go type [any] that the sources only test with [.(string)]. *)
Inductive AnyString :=
| AnyNil
| AnyStr (s : string)
| AnyOther.

(** types.OpenAIResponsesStreamResponses. *)
Record OpenAIResponsesStreamResponses := {
  rs_Type : string;
  rs_Delta : AnyString;
  rs_Response : option OpenAIResponsesResponses
}.

Record ChatCompletionStreamChoice := {
  sc_Index : Z;
  sc_DeltaContent : string;       (* Delta.Content *)
  sc_FinishReason : AnyString
}.

Record ChatCompletionStreamResponse := {
  cs_ID : string;
  cs_Object : string;
  cs_Created : Z;
  cs_Model : string;
  cs_Choices : list ChatCompletionStreamChoice
}.

Record ChatCompletionChoice := {
  cc_Index : Z;
  cc_Role : string;               (* Message.Role *)
  cc_Content : string;            (* Message.Content *)
  cc_FinishReason : string
}.

Record ChatCompletionResponse := {
  cr_ID : string;
  cr_Object : string;
  cr_Created : Z;
  cr_Model : string;
  cr_Choices : list ChatCompletionChoice;
  cr_Usage : Usage
}.

Record OpenAIError := {
  Code : AnyString;
  Message : string;
  ErrorType : string
}.

Record OpenAIErrorWithStatusCode := {
  e_Message : string;
  e_Code : string;
  e_StatusCode : Z
}.

Record CodexErrorDetail := {
  ed_Message : string;
  ed_Type : string;
  ed_Code : AnyString;
  ed_ResetsInSeconds : Z
}.

Record CodexErrorResponse := {
  er_Error : CodexErrorDetail
}.

(** [encoding/json] at the types the provider uses.  [None] is a non-nil
    error of json.Unmarshal or json.Marshal. *)
Record JSON := {
  unmarshalCodexError : string → option CodexErrorResponse;
  unmarshalOpenAIError : string → option OpenAIError;
  unmarshalStringMap : string → option (gmap string string);
  unmarshalResponsesStream : string → option OpenAIResponsesStreamResponses;
  marshalChatStream : ChatCompletionStreamResponse → option string;
  unmarshalChatStream : string → option ChatCompletionStreamResponse
}.

(** *** base.go: RequestErrorHandle *)

(** The upstream HTTP response as the handler reads it: [Body] is what
    io.ReadAll returns, [None] when reading fails. *)
Record Response := {
  StatusCode : Z;
  Body : option string
}.

Definition redaction : string := "xxxxx".

Definition scrub (accessToken message : string) : string :=
  if negb (String.eqb accessToken "")
  then Strings.ReplaceAll message accessToken redaction
  else message.

(** The first branch: the body parses as a Codex error payload with a
    message. *)
Definition codexError (J : JSON) (bodyBytes : string) : option CodexErrorDetail :=
  match unmarshalCodexError J bodyBytes with
  | Some codexErrorResp =>
      if negb (String.eqb (ed_Message (er_Error codexErrorResp)) "")
      then Some (er_Error codexErrorResp) else None
  | None => None
  end.

(** [RequestErrorHandle(accessToken)(resp)]; [None] is the nil
    *types.OpenAIError. The rate-limit branch only writes a log line. *)
Definition RequestErrorHandle (J : JSON) (accessToken : string) (resp : Response)
    : option OpenAIError :=
  match Body resp with
  | None => None
  | Some bodyBytes =>
      match codexError J bodyBytes with
      | Some detail =>
          Some {| Code := ed_Code detail;
                  Message := scrub accessToken (ed_Message detail);
                  ErrorType := ed_Type detail |}
      | None =>
          match unmarshalOpenAIError J bodyBytes with
          | None => None
          | Some openAIError =>
              if String.eqb (Message openAIError) "" then None
              else Some {| Code := Code openAIError;
                           Message := scrub accessToken (Message openAIError);
                           ErrorType := ErrorType openAIError |}
          end
      end
  end.

(** *** base.go, chat.go, responses.go: the outbound request headers *)

Record Channel := {
  Other : string;
  ModelHeaders : option string
}.

(** The provider as the header code reads it. [Context] is the inbound
    request, given by its [Header.Get] (the empty string for a header that is
    not there); [AccountID] is Credentials.AccountID, empty when there are no
    credentials. *)
Record Provider := {
  Context : option (string → string);
  channel : Channel;
  AccountID : string
}.

Definition allowedKeys : list string :=
  [ "version"; "openai-beta"; "session_id"; "x-session-id" ].

(** filterAndPassthroughClientHeaders: the loop over [allowedKeys]. *)
Fixpoint passthrough (get : string → string) (keys : list string)
    (headers : gmap string string) : gmap string string :=
  match keys with
  | [] => headers
  | key :: keys' =>
      let value := get key in
      passthrough get keys'
        (if negb (String.eqb value "") then <[key := value]> headers else headers)
  end.

Definition filterAndPassthroughClientHeaders (p : Provider)
    (headers : gmap string string) : gmap string string :=
  match Context p with
  | None => headers
  | Some get => passthrough get allowedKeys headers
  end.

(** A Go map read [headers[k]]: the zero value for a missing key. *)
Definition index (headers : gmap string string) (k : string) : string :=
  default "" (headers !! k).

(** BaseProvider.CommonRequestHeaders. The range over the custom headers
    assigns each key once, so the result is the custom map laid over the
    headers. *)
Definition CommonRequestHeaders (J : JSON) (p : Provider)
    (headers : gmap string string) : gmap string string :=
  let headers :=
    match Context p with
    | Some get => <["Accept" := get "Accept"]> (<["Content-Type" := get "Content-Type"]> headers)
    | None => headers
    end in
  let headers :=
    if String.eqb (index headers "Content-Type") ""
    then <["Content-Type" := "application/json"]> headers
    else headers in
  match ModelHeaders (channel p) with
  | Some text =>
      match unmarshalStringMap J text with
      | Some customHeaders => customHeaders ∪ headers
      | None => headers
      end
  | None => headers
  end.

(** The header map when getRequestHeadersInternal reaches GetToken: the
    allow-listed passthrough and then the channel's overrides. *)
Definition earlyHeaders (J : JSON) (p : Provider) : gmap string string :=
  CommonRequestHeaders J p
    (match Context p with
     | Some _ => filterAndPassthroughClientHeaders p ∅
     | None => ∅
     end).

(** getRequestHeadersInternal, given what GetToken returned ([None]: an
    error). *)
Definition getRequestHeadersInternal (J : JSON) (p : Provider) (token : option string)
    : option (gmap string string) :=
  let headers := earlyHeaders J p in
  match token with
  | None => None
  | Some token =>
      let headers := <["Authorization" := "Bearer " +:+ token]> headers in
      let headers := <["Content-Type" := "application/json"]> headers in
      Some (if negb (String.eqb (AccountID p) "")
            then <["chatgpt-account-id" := AccountID p]> headers
            else headers)
  end.

Definition defaultUserAgent : string :=
  "codex_cli_rs/0.38.0 (Ubuntu 22.4.0; x86_64) WindowsTerminal".

(** The custom user agent of channel.Other, when it is configured. *)
Definition customUserAgent (J : JSON) (p : Provider) : option string :=
  if negb (String.eqb (Other (channel p)) "") then
    match unmarshalStringMap J (Other (channel p)) with
    | Some config =>
        match config !! "user_agent" with
        | Some userAgent => if negb (String.eqb userAgent "") then Some userAgent else None
        | None => None
        end
    | None => None
    end
  else None.

(** applyDefaultHeaders. With a custom user agent the function returns right
    after setting it, before the Accept default. *)
Definition applyDefaultHeaders (J : JSON) (p : Provider)
    (headers : gmap string string) : gmap string string :=
  let headers :=
    match headers !! "Host" with
    | Some _ => headers
    | None => <["Host" := "chatgpt.com"]> headers
    end in
  match headers !! "User-Agent" with
  | None =>
      match customUserAgent J p with
      | Some userAgent => <["User-Agent" := userAgent]> headers
      | None =>
          let headers := <["User-Agent" := defaultUserAgent]> headers in
          match headers !! "Accept" with
          | Some _ => headers
          | None => <["Accept" := "application/json"]> headers
          end
      end
  | Some _ =>
      match headers !! "Accept" with
      | Some _ => headers
      | None => <["Accept" := "application/json"]> headers
      end
  end.

(** The headers getResponsesRequest hands to Requester.NewRequest; [None]
    when the token cannot be had (handleTokenError). *)
Definition requestHeaders (J : JSON) (p : Provider) (token : option string)
    (stream : bool) : option (gmap string string) :=
  match getRequestHeadersInternal J p token with
  | None => None
  | Some headers =>
      let headers := applyDefaultHeaders J p headers in
      Some (<["Accept" := if stream then "text/event-stream" else "application/json"]> headers)
  end.

(** *** Streams.  A stream handler is called once per raw line and may send
    strings on the data channel; the consumer receives from the data and the
    error channel with [select]. *)

(** What one [select] of a collector receives. *)
Inductive Recv :=
| RecvData (data : string)          (* data, ok := <-dataChan with ok *)
| RecvDataClosed                    (* data channel closed *)
| RecvErr (err : option string)     (* err, ok := <-errChan with ok; the text is err.Error() *)
| RecvErrClosed.                    (* error channel closed *)

Definition EOF : string := "EOF".    (* io.EOF.Error() *)

(** The outcome of a collector. *)
Inductive Collected (A : Type) :=
| Built (response : A)
| Failed (err : OpenAIErrorWithStatusCode).
Arguments Built {A} response.
Arguments Failed {A} err.

Definition StatusInternalServerError : Z := 500.

(** common.ErrorWrapper(err, code, status) *)
Definition ErrorWrapper (err code : string) (status : Z) : OpenAIErrorWithStatusCode :=
  {| e_Message := err; e_Code := code; e_StatusCode := status |}.

(** common.StringErrorWrapperLocal(message, code, status) *)
Definition StringErrorWrapperLocal (message code : string) (status : Z)
    : OpenAIErrorWithStatusCode :=
  {| e_Message := message; e_Code := code; e_StatusCode := status |}.

(** The usage counters a completed response carries, copied over the shared
    counters. *)
Definition copyUsage (usage : Usage) (response : OpenAIResponsesResponses) : Usage :=
  match rr_Usage response with
  | Some u => {| PromptTokens := InputTokens u;
                 CompletionTokens := OutputTokens u;
                 TotalTokens := ru_TotalTokens u |}
  | None => usage
  end.

(** The test [Type == "response.completed" && Response != nil]: the
    response of a completed event. *)
Definition completedResponse (event : OpenAIResponsesStreamResponses)
    : option OpenAIResponsesResponses :=
  if String.eqb (rs_Type event) "response.completed" then rs_Response event else None.

(** *** chat.go: CodexStreamHandler *)

(** convertResponsesStreamToChatStream *)
Definition convertResponsesStreamToChatStream (requestModel : string)
    (responsesStream : OpenAIResponsesStreamResponses) (delta : string)
    : ChatCompletionStreamResponse :=
  {| cs_ID := match rs_Response responsesStream with
              | Some response => rr_ID response
              | None => ""
              end;
     cs_Object := "chat.completion.chunk";
     cs_Created := 0;
     cs_Model := requestModel;
     cs_Choices := [ {| sc_Index := 0; sc_DeltaContent := delta; sc_FinishReason := AnyNil |} ] |}.

(** [HandlerStream(rawLine, dataChan, errChan)]: the new value of the shared
    usage counters and the strings sent on the data channel. [rawLine] is
    [None] for the nil pointer. *)
Definition HandlerStream (J : JSON) (requestModel : string) (usage : Usage)
    (rawLine : option string) : Usage * list string :=
  match rawLine with
  | None => (usage, [])
  | Some line =>
      if String.eqb line "" then (usage, [])
      else if negb (Strings.HasPrefix line "data:") then (usage, [])
      else
        let data := Strings.TrimSpace (Strings.TrimPrefix line "data:") in
        if String.eqb data "[DONE]" then (usage, [])
        else
          match unmarshalResponsesStream J data with
          | None => (usage, [])
          | Some responsesStream =>
              match completedResponse responsesStream with
              | Some response => (copyUsage usage response, [])
              | None =>
                  if String.eqb (rs_Type responsesStream) "response.output_text.delta" then
                    match rs_Delta responsesStream with
                    | AnyStr delta =>
                        match marshalChatStream J
                                (convertResponsesStreamToChatStream requestModel
                                   responsesStream delta) with
                        | Some responseBody => (usage, [responseBody])
                        | None => (usage, [])
                        end
                    | _ => (usage, [])
                    end
                  else (usage, [])
              end
          end
  end.

(** The accumulators of collectStreamResponse. *)
Record ChatAcc := {
  fullContent : string;
  responseID : string;
  model : string;
  finishReason : string
}.

(** One received chunk: the body of the [case data, ok := <-dataChan]. *)
Definition collectChunk (acc : ChatAcc) (chatStream : ChatCompletionStreamResponse) : ChatAcc :=
  let responseID :=
    if String.eqb (responseID acc) "" && negb (String.eqb (cs_ID chatStream) "")
    then cs_ID chatStream else responseID acc in
  let model :=
    if negb (String.eqb (cs_Model chatStream) "") then cs_Model chatStream else model acc in
  match cs_Choices chatStream with
  | choice :: _ =>
      {| fullContent :=
           if negb (String.eqb (sc_DeltaContent choice) "")
           then fullContent acc +:+ sc_DeltaContent choice else fullContent acc;
         responseID := responseID;
         model := model;
         finishReason :=
           match sc_FinishReason choice with
           | AnyStr fr => if negb (String.eqb fr "") then fr else finishReason acc
           | _ => finishReason acc
           end |}
  | [] =>
      {| fullContent := fullContent acc; responseID := responseID; model := model;
         finishReason := finishReason acc |}
  end.

(** The label [buildResponse]. [created] is time.Now().Unix(); [usage] is
    what p.Usage points to at that moment. *)
Definition buildResponse (created : Z) (usage : Usage) (acc : ChatAcc) : ChatCompletionResponse :=
  {| cr_ID := responseID acc;
     cr_Object := "chat.completion";
     cr_Created := created;
     cr_Model := model acc;
     cr_Choices := [ {| cc_Index := 0; cc_Role := "assistant";
                        cc_Content := fullContent acc;
                        cc_FinishReason := finishReason acc |} ];
     cr_Usage := usage |}.

(** The [for { select { ... } }] of collectStreamResponse over what the two
    channels deliver, in order. [None]: every delivery has been consumed and
    the loop is still waiting. *)
Fixpoint collectStreamLoop (J : JSON) (created : Z) (usage : Usage) (acc : ChatAcc)
    (recvs : list Recv) : option (Collected ChatCompletionResponse) :=
  match recvs with
  | [] => None
  | RecvDataClosed :: _ => Some (Built (buildResponse created usage acc))
  | RecvData data :: recvs' =>
      match unmarshalChatStream J data with
      | None => collectStreamLoop J created usage acc recvs'
      | Some chatStream => collectStreamLoop J created usage (collectChunk acc chatStream) recvs'
      end
  | RecvErrClosed :: recvs' => collectStreamLoop J created usage acc recvs'
  | RecvErr None :: recvs' => collectStreamLoop J created usage acc recvs'
  | RecvErr (Some err) :: recvs' =>
      if String.eqb err EOF then Some (Built (buildResponse created usage acc))
      else Some (Failed (ErrorWrapper err "stream_read_failed" StatusInternalServerError))
  end.

(** [collectStreamResponse(stream, request)]. *)
Definition collectStreamResponse (J : JSON) (created : Z) (usage : Usage)
    (requestModel : string) (recvs : list Recv)
    : option (Collected ChatCompletionResponse) :=
  collectStreamLoop J created usage
    {| fullContent := ""; responseID := ""; model := requestModel; finishReason := "stop" |}
    recvs.

(** *** responses.go: CodexResponsesStreamHandler *)

Record CodexResponsesStreamHandler := {
  h_Usage : Usage;
  eventBuffer : string;
  eventType : string
}.

Definition withUsage (h : CodexResponsesStreamHandler) (usage : Usage) :=
  {| h_Usage := usage; eventBuffer := eventBuffer h; eventType := eventType h |}.

(** The usage extraction of a data line: the shared counters after it. *)
Definition extractUsage (J : JSON) (usage : Usage) (dataLine : string) : Usage :=
  match unmarshalResponsesStream J dataLine with
  | Some responsesEvent =>
      match completedResponse responsesEvent with
      | Some response => copyUsage usage response
      | None => usage
      end
  | None => usage
  end.

Definition newline : string := String (Strings.byte 10) "".

(** [HandlerResponsesStream(rawLine, dataChan, errChan)]: the handler after
    the line and the strings sent on the data channel. *)
Definition HandlerResponsesStream (J : JSON) (h : CodexResponsesStreamHandler)
    (rawStr : string) : CodexResponsesStreamHandler * list string :=
  if Strings.HasPrefix rawStr "event: " then
    ({| h_Usage := h_Usage h;
        eventBuffer := rawStr +:+ newline;
        eventType := Strings.TrimPrefix rawStr "event: " |}, [])
  else if negb (Strings.HasPrefix rawStr "data: ") then
    if (0 <? String.length (eventBuffer h))%nat then
      ({| h_Usage := h_Usage h;
          eventBuffer := eventBuffer h +:+ rawStr +:+ newline;
          eventType := eventType h |}, [])
    else (h, [rawStr])
  else
    let dataLine := Strings.TrimSpace (Strings.TrimPrefix rawStr "data: ") in
    if String.eqb dataLine "[DONE]" then
      if (0 <? String.length (eventBuffer h))%nat then
        ({| h_Usage := h_Usage h; eventBuffer := ""; eventType := "" |}, [eventBuffer h])
      else (h, [])
    else
      let usage := extractUsage J (h_Usage h) dataLine in
      if (0 <? String.length (eventBuffer h))%nat then
        let buffer := eventBuffer h +:+ rawStr +:+ newline in
        if Strings.HasSuffix buffer (newline +:+ newline) then
          ({| h_Usage := usage; eventBuffer := ""; eventType := "" |}, [buffer])
        else
          ({| h_Usage := usage; eventBuffer := buffer; eventType := eventType h |}, [])
      else (withUsage h usage, [rawStr]).

(** extractJSONFromSSE: the payload of the first line that, trimmed, starts
    with "data: ". *)
Fixpoint firstDataLine (lines : list string) : string :=
  match lines with
  | [] => ""
  | line :: lines' =>
      let line := Strings.TrimSpace line in
      if Strings.HasPrefix line "data: " then Strings.TrimPrefix line "data: "
      else firstDataLine lines'
  end.

Definition extractJSONFromSSE (sseData : string) : string :=
  firstDataLine (Strings.Split sseData (Strings.byte 10)).

(** The [for { select { ... } }] of collectResponsesStreamResponse: [response]
    is the last completed response seen, [usage] the provider's counters. *)
Fixpoint collectResponsesLoop (J : JSON) (usage : Usage)
    (response : option OpenAIResponsesResponses) (recvs : list Recv)
    : option (Collected OpenAIResponsesResponses * Usage) :=
  let buildResponse :=
    match response with
    | None => Some (Failed (StringErrorWrapperLocal "no response received" "no_response"
                              StatusInternalServerError), usage)
    | Some response => Some (Built response, usage)
    end in
  match recvs with
  | [] => None
  | RecvDataClosed :: _ => buildResponse
  | RecvData data :: recvs' =>
      if String.eqb (Strings.TrimSpace data) "" then collectResponsesLoop J usage response recvs'
      else
        let jsonData := extractJSONFromSSE data in
        if String.eqb jsonData "" then collectResponsesLoop J usage response recvs'
        else
          match unmarshalResponsesStream J jsonData with
          | None => collectResponsesLoop J usage response recvs'
          | Some streamResp =>
              match completedResponse streamResp with
              | Some completed =>
                  collectResponsesLoop J (copyUsage usage completed) (Some completed) recvs'
              | None => collectResponsesLoop J usage response recvs'
              end
          end
  | RecvErrClosed :: recvs' => collectResponsesLoop J usage response recvs'
  | RecvErr None :: recvs' => collectResponsesLoop J usage response recvs'
  | RecvErr (Some err) :: recvs' =>
      if String.eqb err EOF then buildResponse
      else Some (Failed (ErrorWrapper err "stream_read_failed" StatusInternalServerError), usage)
  end.

(** [collectResponsesStreamResponse(stream)]. *)
Definition collectResponsesStreamResponse (J : JSON) (usage : Usage) (recvs : list Recv)
    : option (Collected OpenAIResponsesResponses * Usage) :=
  collectResponsesLoop J usage None recvs.

(** *** The line reader between the upstream body and a handler.

    Modelled from the spec: requester.RequestStream is not among the sources.
    The spec has the input as a sequence of raw lines ended by end-of-stream,
    the clean close arriving on the error source with its sentinel value, and
    deltas delivered in arrival order. So the handler is run on each line in
    turn, what it sends is delivered in that order, and io.EOF follows on the
    error channel. *)
Fixpoint runHandlerStream (J : JSON) (requestModel : string) (usage : Usage)
    (lines : list string) : Usage * list Recv :=
  match lines with
  | [] => (usage, [RecvErr (Some EOF)])
  | line :: lines' =>
      let '(usage, sent) := HandlerStream J requestModel usage (Some line) in
      let '(usage, recvs) := runHandlerStream J requestModel usage lines' in
      (usage, map RecvData sent ++ recvs)
  end.

(** CreateChatCompletion from the upstream lines on: the handler fills the
    channels and the shared counters, collectStreamResponse reads them. The
    collector returns only after end-of-stream, when every line has been
    handled, so it reads the counters as the last line left them. *)
Definition aggregateChat (J : JSON) (created : Z) (requestModel : string)
    (usage : Usage) (lines : list string)
    : option (Collected ChatCompletionResponse) :=
  let '(usage, recvs) := runHandlerStream J requestModel usage lines in
  collectStreamResponse J created usage requestModel recvs.

(** *** responses.go: merging system and developer input messages *)

(** Modelled from the spec: the role and type constants of package [types]
    are not among the sources. The spec names the system, developer and user
    roles of input messages and the input-text and output-text segments; the
    values are the ones of the wire format. *)
Definition InputTypeMessage : string := "message".
Definition ChatMessageRoleSystem : string := "system".
Definition ChatMessageRoleDeveloper : string := "developer".
Definition ChatMessageRoleUser : string := "user".
Definition ContentTypeInputText : string := "input_text".
Definition ContentTypeOutputText : string := "output_text".

(** types.ContentResponses; [p_Rest] stands for the fields the merge never
    reads (image and file references, annotations). *)
Record ContentResponses := {
  p_Type : string;
  p_Text : string;
  p_Rest : string
}.

(** The [any]-typed content of an input item: absent, a plain string, a list
    of parts, or a value that is neither. *)
Inductive ContentValue :=
| ContentNil
| ContentString (s : string)
| ContentParts (parts : list ContentResponses)
| ContentInvalid.

(** types.InputResponses; [i_Rest] stands for the fields the merge never
    reads. *)
Record InputResponses := {
  i_Type : string;
  i_Role : string;
  i_Content : ContentValue;
  i_Rest : string
}.

(** Modelled from the spec: InputResponses.ParseContent is not among the
    sources. It yields the parts of a list-valued content and fails on a
    value that is no list of parts; the sources call it only once the string
    case is handled, and treat a failure and an empty list alike. *)
Definition ParseContent (input : InputResponses) : option (list ContentResponses) :=
  match i_Content input with
  | ContentParts parts => Some parts
  | ContentNil => Some []
  | ContentString s =>
      Some [ {| p_Type := ContentTypeInputText; p_Text := s; p_Rest := "" |} ]
  | ContentInvalid => None
  end.

Definition isMessageType (input : InputResponses) : bool :=
  negb (negb (String.eqb (i_Type input) "")
        && negb (String.eqb (i_Type input) InputTypeMessage)).

Definition normalizedRole (input : InputResponses) : string :=
  Strings.ToLower (Strings.TrimSpace (i_Role input)).

Definition isSystemInputMessage (input : InputResponses) : bool :=
  if negb (isMessageType input) then false
  else String.eqb (normalizedRole input) ChatMessageRoleSystem
       || String.eqb (normalizedRole input) ChatMessageRoleDeveloper.

Definition isMergeableInputMessage (input : InputResponses) : bool :=
  if negb (isMessageType input) then false
  else String.eqb (normalizedRole input) ChatMessageRoleUser.

(** A part whose text counts as text of the message. *)
Definition isTextPart (content : ContentResponses) : bool :=
  String.eqb (p_Type content) ContentTypeInputText
  || String.eqb (p_Type content) ContentTypeOutputText
  || String.eqb (p_Type content) "".

Fixpoint textParts (contentList : list ContentResponses) : list string :=
  match contentList with
  | [] => []
  | content :: rest =>
      if isTextPart content && negb (String.eqb (Strings.TrimSpace (p_Text content)) "")
      then p_Text content :: textParts rest
      else textParts rest
  end.

Definition extractInputMessageText (input : InputResponses) : string :=
  match i_Content input with
  | ContentNil => ""
  | ContentString content => content
  | _ =>
      match ParseContent input with
      | None | Some [] => ""
      | Some contentList => Strings.Join (textParts contentList) newline
      end
  end.

Definition blankLine : string := newline +:+ newline.

Definition withContent (input : InputResponses) (content : ContentValue) : InputResponses :=
  {| i_Type := i_Type input; i_Role := i_Role input; i_Content := content;
     i_Rest := i_Rest input |}.

Definition withText (content : ContentResponses) (text : string) : ContentResponses :=
  {| p_Type := p_Type content; p_Text := text; p_Rest := p_Rest content |}.

Definition prependSystemTextToInputMessage (input : InputResponses) (systemText : string)
    : InputResponses :=
  let systemText := Strings.TrimSpace systemText in
  if String.eqb systemText "" then input
  else
    match i_Content input with
    | ContentString content =>
        if String.eqb (Strings.TrimSpace content) ""
        then withContent input (ContentString systemText)
        else withContent input (ContentString (systemText +:+ blankLine +:+ content))
    | _ =>
        match ParseContent input with
        | None | Some [] => withContent input (ContentString systemText)
        | Some (first :: rest) =>
            if isTextPart first then
              if String.eqb (Strings.TrimSpace (p_Text first)) ""
              then withContent input (ContentParts (withText first systemText :: rest))
              else withContent input
                     (ContentParts
                        (withText first (systemText +:+ blankLine +:+ p_Text first) :: rest))
            else
              withContent input
                (ContentParts
                   ({| p_Type := ContentTypeInputText; p_Text := systemText; p_Rest := "" |}
                    :: first :: rest))
        end
    end.

(** The [for _, input := range inputs] loop: [merged] and
    [pendingSystemText] after the remaining inputs. *)
Fixpoint mergeLoop (inputs merged : list InputResponses) (pendingSystemText : list string)
    : list InputResponses * list string :=
  match inputs with
  | [] => (merged, pendingSystemText)
  | input :: inputs' =>
      if isSystemInputMessage input then
        let systemText := Strings.TrimSpace (extractInputMessageText input) in
        mergeLoop inputs' merged
          (if negb (String.eqb systemText "")
           then pendingSystemText ++ [systemText] else pendingSystemText)
      else if (0 <? length pendingSystemText)%nat && isMergeableInputMessage input then
        mergeLoop inputs'
          (merged ++ [prependSystemTextToInputMessage input
                        (Strings.Join pendingSystemText blankLine)])
          []
      else mergeLoop inputs' (merged ++ [input]) pendingSystemText
  end.

(** The user message that carries system text no later message took. *)
Definition syntheticUserMessage (pendingSystemText : list string) : InputResponses :=
  {| i_Type := InputTypeMessage;
     i_Role := ChatMessageRoleUser;
     i_Content :=
       ContentParts [ {| p_Type := ContentTypeInputText;
                         p_Text := Strings.Join pendingSystemText blankLine;
                         p_Rest := "" |} ];
     i_Rest := "" |}.

(** The value assigned to request.Input for a non-empty list of inputs. *)
Definition mergeInputs (inputs : list InputResponses) : list InputResponses :=
  let '(merged, pendingSystemText) := mergeLoop inputs [] [] in
  if (0 <? length pendingSystemText)%nat
  then merged ++ [syntheticUserMessage pendingSystemText]
  else merged.

(** [mergeSystemInputMessagesForCodex(request)], given what
    request.ParseInput() returns ([None]: an error): the new request.Input,
    or [None] when the request is left as it is. *)
Definition mergeSystemInputMessagesForCodex (parsed : option (list InputResponses))
    : option (list InputResponses) :=
  match parsed with
  | None | Some [] => None
  | Some inputs => Some (mergeInputs inputs)
  end.

(** *** Runs of the handlers, and the vocabulary of the stream properties *)

(** A data line whose payload is the [DONE] sentinel. *)
Definition isDoneLine (rawStr : string) : bool :=
  Strings.HasPrefix rawStr "data: "
  && String.eqb (Strings.TrimSpace (Strings.TrimPrefix rawStr "data: ")) "[DONE]".

(** HandlerResponsesStream called on each line in turn: the handler at the
    end and everything sent on the data channel, in order. *)
Fixpoint runResponsesHandler (J : JSON) (h : CodexResponsesStreamHandler)
    (lines : list string) : CodexResponsesStreamHandler * list string :=
  match lines with
  | [] => (h, [])
  | rawStr :: lines' =>
      let '(h, sent) := HandlerResponsesStream J h rawStr in
      let '(h, sent') := runResponsesHandler J h lines' in
      (h, sent ++ sent')
  end.

(** The text an open event has buffered for these lines: each line and a
    line terminator. *)
Fixpoint buffered (lines : list string) : string :=
  match lines with
  | [] => ""
  | rawStr :: lines' => rawStr +:+ newline +:+ buffered lines'
  end.

(** The payload of a chat-path data line. *)
Definition payload (line : string) : string :=
  Strings.TrimSpace (Strings.TrimPrefix line "data:").

(** [line] is a data line that carries [event]. *)
Definition carries (J : JSON) (line : string) (event : OpenAIResponsesStreamResponses) : Prop :=
  Strings.HasPrefix line "data:" = true ∧
  payload line ≠ "[DONE]" ∧
  unmarshalResponsesStream J (payload line) = Some event.

(** [event] is a content delta with the given text. *)
Definition contentDelta (event : OpenAIResponsesStreamResponses) (text : string) : Prop :=
  rs_Type event = "response.output_text.delta" ∧ rs_Delta event = AnyStr text.

(** [event] is the terminal completed event, with the given total usage. *)
Definition completedWith (event : OpenAIResponsesStreamResponses) (total : Z) : Prop :=
  rs_Type event = "response.completed" ∧
  ∃ response usage,
    rs_Response event = Some response ∧ rr_Usage response = Some usage ∧
    ru_TotalTokens usage = total.

(** The chunk survives json.Marshal followed by json.Unmarshal. *)
Definition roundTrips (J : JSON) (chunk : ChatCompletionStreamResponse) : Prop :=
  ∃ s, marshalChatStream J chunk = Some s ∧ unmarshalChatStream J s = Some chunk.

(** The message content of an aggregated chat response. *)
Definition messageContent (response : ChatCompletionResponse) : option string :=
  match cr_Choices response with
  | [choice] => Some (cc_Content choice)
  | _ => None
  end.

Definition zeroUsage : Usage :=
  {| PromptTokens := 0; CompletionTokens := 0; TotalTokens := 0 |}.

Definition newHandler : CodexResponsesStreamHandler :=
  {| h_Usage := zeroUsage; eventBuffer := ""; eventType := "" |}.


(** *** The vocabulary of the merge of system messages *)




(** *** The vocabulary of the collectors *)

(** The completed response a delivery of the Responses stream carries, as
    collectResponsesStreamResponse reads it: the delivery is not blank, a
    line of it is a data line, the payload decodes and is a completed event
    with a response. *)
Definition completedIn (J : JSON) (data : string) : option OpenAIResponsesResponses :=
  if String.eqb (Strings.TrimSpace data) "" then None
  else
    let jsonData := extractJSONFromSSE data in
    if String.eqb jsonData "" then None
    else unmarshalResponsesStream J jsonData ≫= completedResponse.

(** A delivery after which a collector goes on receiving. *)
Definition goesOn (recv : Recv) : bool :=
  match recv with
  | RecvData _ | RecvErrClosed | RecvErr None => true
  | RecvDataClosed | RecvErr (Some _) => false
  end.

(** A delivery after which the Responses collector goes on with the
    response it had. *)
Definition carriesNoResponse (J : JSON) (recv : Recv) : bool :=
  match recv with
  | RecvData data =>
      match completedIn J data with
      | Some _ => false
      | None => true
      end
  | _ => goesOn recv
  end.

(** The end of a stream: the data channel is closed, or io.EOF arrives on
    the error channel. *)
Definition endsStream (recv : Recv) : bool :=
  match recv with
  | RecvDataClosed => true
  | RecvErr (Some err) => String.eqb err EOF
  | _ => false
  end.

(** The usage counters of a completed response. *)
Definition usageOf (u : ResponsesUsage) : Usage :=
  {| PromptTokens := InputTokens u;
     CompletionTokens := OutputTokens u;
     TotalTokens := ru_TotalTokens u |}.

Definition noResponse : OpenAIErrorWithStatusCode :=
  StringErrorWrapperLocal "no response received" "no_response" StatusInternalServerError.

Definition readFailure (err : string) : OpenAIErrorWithStatusCode :=
  ErrorWrapper err "stream_read_failed" StatusInternalServerError.

(** The content delta of a chat chunk: that of its first choice. *)
Definition deltaOf (chunk : ChatCompletionStreamResponse) : string :=
  match cs_Choices chunk with
  | choice :: _ => sc_DeltaContent choice
  | [] => ""
  end.

(** The provider serving an inbound request whose headers [get] reads. *)
Definition withContext (p : Provider) (get : string → string) : Provider :=
  {| Context := Some get; channel := channel p; AccountID := AccountID p |}.

(** *** responses.go: prepareCodexRequest and adaptCodexCLI *)

(** Modelled from the spec: types.OpenAIResponsesRequest and its ParseInput
    are not among the sources. The spec speaks of a Responses request with a
    model, sampling parameters, instructions and a list of input messages.
    Of the request, the record has the fields the preparation reads or
    writes. The input is a list of input items, which ParseInput yields as it
    is, or a value of another form (a plain string), for which ParseInput is
    the function [parseOther] that the definitions take as an argument. *)
Inductive InputValue :=
| InputItems (items : list InputResponses)
| InputOther (raw : string).

Record OpenAIResponsesRequest := {
  q_Model : string;
  q_Store : option bool;
  q_Temperature : option Z;
  q_TopP : option Z;
  q_MaxOutputTokens : Z;
  q_Instructions : string;
  q_Input : InputValue;
  q_Stream : bool
}.

Definition ParseInput (parseOther : string → option (list InputResponses))
    (request : OpenAIResponsesRequest) : option (list InputResponses) :=
  match q_Input request with
  | InputItems items => Some items
  | InputOther raw => parseOther raw
  end.

Definition withInput (request : OpenAIResponsesRequest) (input : InputValue)
    : OpenAIResponsesRequest :=
  {| q_Model := q_Model request; q_Store := q_Store request;
     q_Temperature := q_Temperature request; q_TopP := q_TopP request;
     q_MaxOutputTokens := q_MaxOutputTokens request;
     q_Instructions := q_Instructions request;
     q_Input := input; q_Stream := q_Stream request |}.

(** mergeSystemInputMessagesForCodex on the request. *)
Definition mergeSystemInputMessages (parseOther : string → option (list InputResponses))
    (request : OpenAIResponsesRequest) : OpenAIResponsesRequest :=
  match mergeSystemInputMessagesForCodex (ParseInput parseOther request) with
  | Some merged => withInput request (InputItems merged)
  | None => request
  end.

(** The test of adaptCodexCLI for a request of the Codex CLI. *)
Definition isCodexCLI (instructions : string) : bool :=
  if String.eqb instructions "" then false
  else
    (50 <? String.length instructions)%nat
    && (Strings.HasPrefix instructions "You are a coding agent running in the Codex CLI"
        || Strings.HasPrefix instructions "You are Codex").

(** adaptCodexCLI; [CodexCLIInstructions] is the constant of that name, which
    is not among the sources. *)
Definition adaptCodexCLI (parseOther : string → option (list InputResponses))
    (CodexCLIInstructions : string) (request : OpenAIResponsesRequest)
    : OpenAIResponsesRequest :=
  if isCodexCLI (q_Instructions request) then request
  else
    let request :=
      {| q_Model := q_Model request; q_Store := q_Store request;
         q_Temperature := None; q_TopP := None; q_MaxOutputTokens := 0;
         q_Instructions := q_Instructions request;
         q_Input := q_Input request; q_Stream := q_Stream request |} in
    let request := mergeSystemInputMessages parseOther request in
    {| q_Model := q_Model request; q_Store := q_Store request;
       q_Temperature := q_Temperature request; q_TopP := q_TopP request;
       q_MaxOutputTokens := q_MaxOutputTokens request;
       q_Instructions := CodexCLIInstructions;
       q_Input := q_Input request; q_Stream := q_Stream request |}.

(** The model name after the normalisation of the gpt-5 variants. *)
Definition normalizedModel (Model : string) : string :=
  if (6 <? String.length Model)%nat
     && String.eqb (Strings.sliceTo 6 Model) "gpt-5-"
     && negb (String.eqb Model "gpt-5-codex")
  then "gpt-5" else Model.

(** prepareCodexRequest. *)
Definition prepareCodexRequest (parseOther : string → option (list InputResponses))
    (CodexCLIInstructions : string) (request : OpenAIResponsesRequest)
    : OpenAIResponsesRequest :=
  adaptCodexCLI parseOther CodexCLIInstructions
    {| q_Model := normalizedModel (q_Model request);
       q_Store := Some false;
       q_Temperature := q_Temperature request;
       q_TopP :=
         match q_Temperature request, q_TopP request with
         | Some _, Some _ => None
         | _, _ => q_TopP request
         end;
       q_MaxOutputTokens := q_MaxOutputTokens request;
       q_Instructions := q_Instructions request;
       q_Input := q_Input request;
       q_Stream := q_Stream request |}.

(** The input of a request after mergeSystemInputMessagesForCodex. *)
Definition mergedInput (parseOther : string → option (list InputResponses))
    (input : InputValue) : InputValue :=
  match mergeSystemInputMessagesForCodex
          (match input with
           | InputItems items => Some items
           | InputOther raw => parseOther raw
           end) with
  | Some merged => InputItems merged
  | None => input
  end.

(** The rule for requests that set both sampling parameters. *)
Definition preferTemperature (Temperature TopP : option Z) : option Z :=
  match Temperature, TopP with
  | Some _, Some _ => None
  | _, _ => TopP
  end.
End Codex.

(** ** Package [base]: the parameter merge engine *)
Module Base.

(** A decoded JSON value, the dynamic type behind map[string]interface{}.
    Numbers are never inspected by the merge. *)
Inductive Value :=
| Null
| Bool (b : bool)
| Number (n : Z)
| Str (s : string)
| Array (elems : list Value)
| Object (fields : gmap string Value).

(** The body of the range loop of DeepMergeMap, for one key of [new], with
    the recursive call passed in. *)
Definition mergeEntry (rec : Value → gmap string Value → gmap string Value)
    (k : string) (newValue : Value) (result : gmap string Value) : gmap string Value :=
  match result !! k with
  | Some (Object existingMap) =>
      match newValue with
      | Object _ => <[k := Object (rec newValue existingMap)]> result
      | _ => <[k := newValue]> result
      end
  | _ => <[k := newValue]> result
  end.

(** DeepMergeMap with the new map wrapped as a value, so that the recursion
    is structural: [result] starts as a copy of [existing] and takes the keys
    of [new] one by one. *)
Fixpoint deepMerge (new : Value) (existing : gmap string Value) {struct new}
    : gmap string Value :=
  match new with
  | Object new => map_fold (mergeEntry deepMerge) existing new
  | _ => existing
  end.

Definition DeepMergeMap (existing new : gmap string Value) : gmap string Value :=
  deepMerge (Object new) existing.

(** The walk of removeNestedParam along the parts of a path. Deleting in the
    nested map that the walk reaches changes the maps on the way to it. *)
Fixpoint removeParts (parts : list string) (current : gmap string Value)
    : gmap string Value :=
  match parts with
  | [] => current
  | [last] => delete last current
  | part :: parts' =>
      match current !! part with
      | Some (Object next) => <[part := Object (removeParts parts' next)]> current
      | _ => current
      end
  end.

Definition removeNestedParam (requestMap : gmap string Value) (paramPath : string)
    : gmap string Value :=
  removeParts (Strings.Split paramPath ".") requestMap.

(** The range over remove_params: entries that are no strings are skipped. *)
Fixpoint removeAll (paramsList : list Value) (requestMap : gmap string Value)
    : gmap string Value :=
  match paramsList with
  | [] => requestMap
  | Str paramName :: rest => removeAll rest (removeNestedParam requestMap paramName)
  | _ :: rest => removeAll rest requestMap
  end.

Definition removeParams (customParamsModel requestMap : gmap string Value)
    : gmap string Value :=
  match customParamsModel !! "remove_params" with
  | Some (Array paramsList) => removeAll paramsList requestMap
  | _ => requestMap
  end.

(** The keys the range over the parameters passes over. *)
Definition ignoredKey (key : string) : bool :=
  String.eqb key "stream" || String.eqb key "overwrite"
  || String.eqb key "per_model" || String.eqb key "pre_add".

(** The body of the range loop that adds the parameters, for one key. *)
Definition addParam (shouldOverwrite : bool) (key : string) (value : Value)
    (requestMap : gmap string Value) : gmap string Value :=
  if ignoredKey key then requestMap
  else if shouldOverwrite then <[key := value]> requestMap
  else
    match requestMap !! key with
    | Some existingValue =>
        match existingValue, value with
        | Object existingMap, Object newMap =>
            <[key := Object (DeepMergeMap existingMap newMap)]> requestMap
        | _, _ => requestMap
        end
    | None => <[key := value]> requestMap
    end.

(** A flag of the parameter set: true only for the boolean true. *)
Definition flag (customParams : gmap string Value) (key : string) : bool :=
  match customParams !! key with
  | Some (Bool b) => b
  | _ => false
  end.

(** The parameters that apply to the model. *)
Definition paramsForModel (customParams : gmap string Value) (modelName : string)
    : gmap string Value :=
  if flag customParams "per_model" then
    match customParams !! modelName with
    | Some (Object modelConfig) => modelConfig
    | _ => ∅
    end
  else customParams.

(** [ApplyCustomParams(requestMap, customParams, modelName, skipPreAddCheck)].
    A nil parameter map is the empty map. *)
Definition ApplyCustomParams (requestMap customParams : gmap string Value)
    (modelName : string) (skipPreAddCheck : bool) : gmap string Value :=
  if decide (customParams = ∅) then requestMap
  else
    let shouldOverwrite := flag customParams "overwrite" in
    if negb skipPreAddCheck && flag customParams "pre_add" then requestMap
    else
      let customParamsModel := paramsForModel customParams modelName in
      let requestMap := removeParams customParamsModel requestMap in
      map_fold (addParam shouldOverwrite) requestMap customParamsModel.

(** [MergeCustomParams]: the entry point of the request path. *)
Definition MergeCustomParams (requestMap customParams : gmap string Value)
    (modelName : string) : gmap string Value :=
  ApplyCustomParams requestMap customParams modelName false.

(** The value at a path of nested maps. *)
Fixpoint lookupPath (parts : list string) (v : Value) : option Value :=
  match parts with
  | [] => Some v
  | part :: parts' =>
      match v with
      | Object m => m !! part ≫= lookupPath parts'
      | _ => None
      end
  end.

(** What DeepMergeMap leaves at one key, from what the two maps have there. *)
Definition mergeAt (existingValue newValue : option Value) : option Value :=
  match newValue with
  | None => existingValue
  | Some newValue =>
      match existingValue, newValue with
      | Some (Object existingMap), Object newMap =>
          Some (Object (DeepMergeMap existingMap newMap))
      | _, _ => Some newValue
      end
  end.

(** What the loop over the parameters leaves at one key of the body. *)
Definition addAt (shouldOverwrite : bool) (key : string)
    (existingValue value : option Value) : option Value :=
  match value with
  | None => existingValue
  | Some value =>
      if ignoredKey key then existingValue
      else if shouldOverwrite then Some value
      else
        match existingValue with
        | Some (Object existingMap) =>
            match value with
            | Object newMap => Some (Object (DeepMergeMap existingMap newMap))
            | _ => existingValue
            end
        | Some _ => existingValue
        | None => Some value
        end
  end.

(** The paths of remove_params that the removal walks: its string entries,
    split at the dots. *)
Fixpoint removedPaths (paramsList : list Value) : list (list string) :=
  match paramsList with
  | [] => []
  | Str paramName :: rest => Strings.Split paramName "." :: removedPaths rest
  | _ :: rest => removedPaths rest
  end.

Definition removePaths (customParamsModel : gmap string Value) : list (list string) :=
  match customParamsModel !! "remove_params" with
  | Some (Array paramsList) => removedPaths paramsList
  | _ => []
  end.

(** The call is not cut short by the pre_add check. *)
Definition applies (customParams : gmap string Value) (skipPreAddCheck : bool) : bool :=
  negb (negb skipPreAddCheck && flag customParams "pre_add").

(** The number of nested maps in a value, a measure for inductions. *)
Fixpoint depthSize (v : Value) : nat :=
  match v with
  | Object m => S (map_fold (λ _ v' acc, depthSize v' + acc)%nat 0%nat m)
  | _ => 0%nat
  end.

Definition isObject (v : Value) : bool :=
  match v with
  | Object _ => true
  | _ => false
  end.

Definition isObjectAt (x : option Value) : bool :=
  match x with
  | Some v => isObject v
  | None => false
  end.

Definition asMap (x : option Value) : gmap string Value :=
  match x with
  | Some (Object m) => m
  | _ => ∅
  end.

(** [between existing new x]: x is a map that DeepMergeMap completes, with
    [new], to the merge of [existing] and [new]. It is what nested removals
    leave of that merge when they take nothing from [existing]. *)
Inductive between : gmap string Value → gmap string Value → gmap string Value → Prop :=
| between_intro existing new x :
    (∀ k, betweenAt (existing !! k) (new !! k) (x !! k)) →
    between existing new x
with betweenAt : option Value → option Value → option Value → Prop :=
| at_none e : betweenAt e None e
| at_leaf e newValue :
    isObject newValue = false → betweenAt e (Some newValue) (Some newValue)
| at_gone e newValue :
    isObject newValue = false ∨ isObjectAt e = false →
    betweenAt e (Some newValue) None
| at_object e newMap x :
    between (asMap e) newMap x →
    betweenAt e (Some (Object newMap)) (Some (Object x)).

Scheme between_mut := Induction for between Sort Prop
  with betweenAt_mut := Induction for betweenAt Sort Prop.

(** The same one level up, for the loop of ApplyCustomParams at one key:
    [x] is an entry from which the loop produces what it produces from [x1]. *)
Definition addableAt (shouldOverwrite : bool) (key : string)
    (x1 value x : option Value) : Prop :=
  match value with
  | None => x = x1
  | Some value =>
      if ignoredKey key then x = x1
      else if shouldOverwrite then True
      else
        match x1 with
        | Some (Object existingMap) =>
            match value with
            | Object newMap => ∃ x', x = Some (Object x') ∧ between existingMap newMap x'
            | _ => x = x1
            end
        | Some _ => x = x1
        | None =>
            match value with
            | Object newMap =>
                x = None ∨ ∃ x', x = Some (Object x') ∧ between ∅ newMap x'
            | _ => x = None ∨ x = Some value
            end
        end
  end.

End Base.


(** ** The merge engine on shared maps

    A Go map is a reference. ApplyCustomParams stores the values of the
    parameter set into the body as they are, and removeNestedParam deletes
    inside the map its walk reaches, so a nested map of the parameter set can
    end up shared with the body. Here maps live in a store and a value of map
    type is the address of one. *)
Module Shared.

Inductive Val :=
| VNull
| VBool (b : bool)
| VNumber (n : Z)
| VStr (s : string)
| VArray (elems : list Val)
| VMap (address : nat).

(** The maps made so far; a map's address is its position. *)
Definition Store := list (gmap string Val).

(** [make(map[string]interface{})], filled with [fields]. *)
Definition make (fields : gmap string Val) (store : Store) : nat * Store :=
  (length store, store ++ [fields]).

(** [m[key]] for the map at [address]. *)
Definition index (address : nat) (key : string) (store : Store) : option Val :=
  store !! address ≫= λ fields, fields !! key.

(** The body of the second range loop of DeepMergeMap, for one key of [new];
    [result] is the address of the map being filled. *)
Definition mergeEntry (rec : nat → nat → Store → option (nat * Store))
    (result : nat) (k : string) (newValue : Val) (acc : option Store)
    : option Store :=
  store ← acc;
  match index result k store, newValue with
  | Some (VMap existingMap), VMap newMap =>
      '(merged, store) ← rec existingMap newMap store;
      Some (alter <[k := VMap merged]> result store)
  | _, _ => Some (alter <[k := newValue]> result store)
  end.

(** DeepMergeMap: a new map that starts with the entries of [existing],
    nested maps copied as addresses. The fuel bounds the depth of the
    recursion; [None] is a run out of fuel or an address of no map. *)
Fixpoint DeepMergeMap (fuel : nat) (existing new : nat) (store : Store)
    : option (nat * Store) :=
  match fuel with
  | O => None
  | S fuel =>
      existingMap ← store !! existing;
      newMap ← store !! new;
      let '(result, store) := make existingMap store in
      store ← map_fold (mergeEntry (DeepMergeMap fuel) result) (Some store) newMap;
      Some (result, store)
  end.

(** The walk of removeNestedParam: [current] moves down the nested maps and
    the last part is deleted in the map the walk has reached. *)
Fixpoint walk (parts : list string) (current : nat) (store : Store) : Store :=
  match parts with
  | [] => store
  | [last] => alter (delete last) current store
  | part :: parts' =>
      match index current part store with
      | Some (VMap next) => walk parts' next store
      | _ => store
      end
  end.

Definition removeNestedParam (requestMap : nat) (paramPath : string)
    (store : Store) : Store :=
  walk (Strings.Split paramPath ".") requestMap store.

Fixpoint removeAll (paramsList : list Val) (requestMap : nat) (store : Store)
    : Store :=
  match paramsList with
  | [] => store
  | VStr paramName :: rest =>
      removeAll rest requestMap (removeNestedParam requestMap paramName store)
  | _ :: rest => removeAll rest requestMap store
  end.

Definition removeParams (customParamsModel requestMap : nat) (store : Store)
    : Store :=
  match index customParamsModel "remove_params" store with
  | Some (VArray paramsList) => removeAll paramsList requestMap store
  | _ => store
  end.

Definition flag (customParams : gmap string Val) (key : string) : bool :=
  match customParams !! key with
  | Some (VBool b) => b
  | _ => false
  end.

(** The body of the range loop that adds the parameters, for one key. *)
Definition addParam (fuel : nat) (shouldOverwrite : bool) (requestMap : nat)
    (key : string) (value : Val) (acc : option Store) : option Store :=
  store ← acc;
  if Base.ignoredKey key then Some store
  else if shouldOverwrite then Some (alter <[key := value]> requestMap store)
  else
    match index requestMap key store with
    | Some existingValue =>
        match existingValue, value with
        | VMap existingMap, VMap newMap =>
            '(merged, store) ← DeepMergeMap fuel existingMap newMap store;
            Some (alter <[key := VMap merged]> requestMap store)
        | _, _ => Some store
        end
    | None => Some (alter <[key := value]> requestMap store)
    end.

(** ApplyCustomParams on the maps at [requestMap] and [customParams]; the
    map returned is the one at [requestMap]. The entries of the parameter
    map are read when the adding loop starts, after the removals. *)
Definition ApplyCustomParams (fuel : nat) (requestMap customParams : nat)
    (modelName : string) (skipPreAddCheck : bool) (store : Store)
    : option Store :=
  params ← store !! customParams;
  if decide (params = ∅) then Some store
  else
    let shouldOverwrite := flag params "overwrite" in
    if negb skipPreAddCheck && flag params "pre_add" then Some store
    else
      let '(customParamsModel, store) :=
        if flag params "per_model" then
          match params !! modelName with
          | Some (VMap modelConfig) => (modelConfig, store)
          | _ => make ∅ store
          end
        else (customParams, store) in
      let store := removeParams customParamsModel requestMap store in
      entries ← store !! customParamsModel;
      map_fold (addParam fuel shouldOverwrite requestMap) (Some store) entries.

(** A decoded value put into the store, every map in a place of its own: what
    json.Unmarshal builds. *)
Fixpoint alloc (v : Base.Value) (store : Store) {struct v} : Val * Store :=
  match v with
  | Base.Null => (VNull, store)
  | Base.Bool b => (VBool b, store)
  | Base.Number n => (VNumber n, store)
  | Base.Str s => (VStr s, store)
  | Base.Array elems =>
      let '(elems, store) :=
        foldr (λ v acc, let '(v, store) := alloc v acc.2 in (v :: acc.1, store))
              ([], store) elems in
      (VArray elems, store)
  | Base.Object fields =>
      let '(fields, store) :=
        map_fold (λ k v acc, let '(v, store) := alloc v acc.2 in
                             (<[k := v]> acc.1, store))
                 (∅, store) fields in
      let '(address, store) := make fields store in
      (VMap address, store)
  end.

(** The value a stored value stands for, maps read through the store. *)
Fixpoint reify (fuel : nat) (store : Store) (v : Val) : option Base.Value :=
  match fuel with
  | O => None
  | S fuel =>
      match v with
      | VNull => Some Base.Null
      | VBool b => Some (Base.Bool b)
      | VNumber n => Some (Base.Number n)
      | VStr s => Some (Base.Str s)
      | VArray elems => Base.Array <$> mapM (reify fuel store) elems
      | VMap address =>
          fields ← store !! address;
          Base.Object <$>
            map_fold (λ k v acc, m ← acc; v ← reify fuel store v; Some (<[k := v]> m))
                     (Some ∅) fields
      end
  end.

(** The body after one call in a store that holds [body] and [params], and
    after a second call with the same parameter map. *)
Definition applyTwice (fuel : nat) (body params : Base.Value) (modelName : string)
    (skipPreAddCheck : bool) : option Base.Value * option Base.Value :=
  let '(requestMap, store) := alloc body [] in
  let '(customParams, store) := alloc params store in
  match requestMap, customParams with
  | VMap requestMap, VMap customParams =>
      let once :=
        ApplyCustomParams fuel requestMap customParams modelName skipPreAddCheck store in
      let twice :=
        once ≫= ApplyCustomParams fuel requestMap customParams modelName skipPreAddCheck in
      (once ≫= λ store, reify fuel store (VMap requestMap),
       twice ≫= λ store, reify fuel store (VMap requestMap))
  | _, _ => (None, None)
  end.

End Shared.
(** ** A JSON text codec

    The theorems below are stated for any [Codex.JSON]. This module gives one
    instance to run the code on actual payloads: a reader and a writer for
    the part of JSON the payloads use (objects, arrays, strings with the
    short escapes, integers, true, false, null). As json.Unmarshal does, a
    decoder leaves a missing or null field at its zero value, fails on a value
    of the wrong type, and keeps the last of a repeated key. *)
Module Json.
Import Base.

Definition quote : ascii := Strings.byte 34.
Definition backslash : ascii := Strings.byte 92.

(** JSON text written with ' for the double quote. *)
Fixpoint text (s : string) : string :=
  match s with
  | EmptyString => EmptyString
  | String c s' => String (if Ascii.eqb c "'" then quote else c) (text s')
  end.

Definition isWhitespace (c : ascii) : bool :=
  let n := Strings.code c in
  ((n =? 32) || (n =? 9) || (n =? 10) || (n =? 13))%N.

Fixpoint skip (s : string) : string :=
  match s with
  | String c s' => if isWhitespace c then skip s' else s
  | EmptyString => s
  end.

Definition unescape (c : ascii) : option ascii :=
  let n := Strings.code c in
  if (n =? 34)%N then Some quote
  else if (n =? 92)%N then Some backslash
  else if (n =? 47)%N then Some c
  else if (n =? 110)%N then Some (Strings.byte 10)
  else if (n =? 116)%N then Some (Strings.byte 9)
  else if (n =? 114)%N then Some (Strings.byte 13)
  else None.

(** The characters of a string literal after its opening quote, and the
    text after its closing quote. *)
Fixpoint readString (s acc : string) : option (string * string) :=
  match s with
  | EmptyString => None
  | String c s' =>
      if Ascii.eqb c quote then Some (acc, s')
      else if Ascii.eqb c backslash then
        match s' with
        | String e s'' =>
            match unescape e with
            | Some ch => readString s'' (acc +:+ String ch "")
            | None => None
            end
        | EmptyString => None
        end
      else readString s' (acc +:+ String c "")
  end.

Definition digit (c : ascii) : option Z :=
  let n := Strings.code c in
  if ((48 <=? n) && (n <=? 57))%N then Some (Z.of_N n - 48)%Z else None.

Fixpoint readDigits (s : string) (acc : Z) : Z * string :=
  match s with
  | String c s' =>
      match digit c with
      | Some d => readDigits s' (10 * acc + d)%Z
      | None => (acc, s)
      end
  | EmptyString => (acc, s)
  end.

Definition readLiteral (word : string) (v : Value) (s : string) : option (Value * string) :=
  if Strings.HasPrefix s word then Some (v, Strings.sliceFrom (String.length word) s) else None.

Fixpoint readValue (fuel : nat) (s : string) : option (Value * string) :=
  match fuel with
  | O => None
  | S fuel' =>
      match skip s with
      | EmptyString => None
      | String c s' =>
          if Ascii.eqb c "{" then readMembers fuel' (skip s') ∅
          else if Ascii.eqb c "[" then readElements fuel' (skip s') []
          else if Ascii.eqb c quote then
            match readString s' "" with
            | Some (str, rest) => Some (Str str, rest)
            | None => None
            end
          else if Ascii.eqb c "-" then
            match s' with
            | String d _ =>
                match digit d with
                | Some _ => let '(n, rest) := readDigits s' 0 in Some (Number (- n), rest)
                | None => None
                end
            | EmptyString => None
            end
          else
            match digit c with
            | Some _ => let '(n, rest) := readDigits (String c s') 0 in Some (Number n, rest)
            | None =>
                if Ascii.eqb c "t" then readLiteral "true" (Bool true) (String c s')
                else if Ascii.eqb c "f" then readLiteral "false" (Bool false) (String c s')
                else if Ascii.eqb c "n" then readLiteral "null" Null (String c s')
                else None
            end
      end
  end
with readMembers (fuel : nat) (s : string) (acc : gmap string Value)
    : option (Value * string) :=
  match fuel with
  | O => None
  | S fuel' =>
      match s with
      | EmptyString => None
      | String c s' =>
          if Ascii.eqb c "}" then Some (Object acc, s')
          else if Ascii.eqb c quote then
            match readString s' "" with
            | Some (key, rest) =>
                match skip rest with
                | String colon rest' =>
                    if Ascii.eqb colon ":" then
                      match readValue fuel' rest' with
                      | Some (v, rest'') =>
                          match skip rest'' with
                          | String d rest3 =>
                              if Ascii.eqb d "," then readMembers fuel' (skip rest3) (<[key := v]> acc)
                              else if Ascii.eqb d "}" then Some (Object (<[key := v]> acc), rest3)
                              else None
                          | EmptyString => None
                          end
                      | None => None
                      end
                    else None
                | EmptyString => None
                end
            | None => None
            end
          else None
      end
  end
with readElements (fuel : nat) (s : string) (acc : list Value)
    : option (Value * string) :=
  match fuel with
  | O => None
  | S fuel' =>
      match s with
      | EmptyString => None
      | String c s' =>
          if Ascii.eqb c "]" then Some (Array acc, s')
          else
            match readValue fuel' s with
            | Some (v, rest) =>
                match skip rest with
                | String d rest' =>
                    if Ascii.eqb d "," then readElements fuel' (skip rest') (acc ++ [v])
                    else if Ascii.eqb d "]" then Some (Array (acc ++ [v]), rest')
                    else None
                | EmptyString => None
                end
            | None => None
            end
      end
  end.

(** A JSON text as a value; [None] for text the reader does not accept. *)
Definition parse (s : string) : option Value :=
  match readValue (2 * String.length s + 2) s with
  | Some (v, rest) => if String.eqb (skip rest) "" then Some v else None
  | None => None
  end.

Definition parseObject (s : string) : option (gmap string Value) :=
  match parse s with
  | Some (Object m) => Some m
  | _ => None
  end.

(** Struct fields: the zero value for a missing or null field, an error for
    a value of another type. *)
Definition stringField (m : gmap string Value) (k : string) : option string :=
  match m !! k with
  | None | Some Null => Some ""
  | Some (Str s) => Some s
  | Some _ => None
  end.

Definition intField (m : gmap string Value) (k : string) : option Z :=
  match m !! k with
  | None | Some Null => Some 0%Z
  | Some (Number n) => Some n
  | Some _ => None
  end.

Definition anyField (m : gmap string Value) (k : string) : Codex.AnyString :=
  match m !! k with
  | None | Some Null => Codex.AnyNil
  | Some (Str s) => Codex.AnyStr s
  | Some _ => Codex.AnyOther
  end.

(** A field of struct or pointer type: [Some None] when missing or null,
    [None] when the value is no object. *)
Definition objectField {A} (decode : gmap string Value → option A)
    (m : gmap string Value) (k : string) : option (option A) :=
  match m !! k with
  | None | Some Null => Some None
  | Some (Object o) => Some <$> decode o
  | Some _ => None
  end.

Definition decodeUsage (m : gmap string Value) : option Codex.ResponsesUsage :=
  i ← intField m "input_tokens";
  o ← intField m "output_tokens";
  t ← intField m "total_tokens";
  Some {| Codex.InputTokens := i; Codex.OutputTokens := o; Codex.ru_TotalTokens := t |}.

Definition decodeResponse (m : gmap string Value) : option Codex.OpenAIResponsesResponses :=
  id ← stringField m "id";
  status ← stringField m "status";
  usage ← objectField decodeUsage m "usage";
  Some {| Codex.rr_ID := id; Codex.rr_Status := status; Codex.rr_Usage := usage |}.

Definition unmarshalResponsesStream (s : string)
    : option Codex.OpenAIResponsesStreamResponses :=
  m ← parseObject s;
  type ← stringField m "type";
  response ← objectField decodeResponse m "response";
  Some {| Codex.rs_Type := type; Codex.rs_Delta := anyField m "delta";
          Codex.rs_Response := response |}.

Definition decodeErrorDetail (m : gmap string Value) : option Codex.CodexErrorDetail :=
  message ← stringField m "message";
  type ← stringField m "type";
  resets ← intField m "resets_in_seconds";
  Some {| Codex.ed_Message := message; Codex.ed_Type := type;
          Codex.ed_Code := anyField m "code"; Codex.ed_ResetsInSeconds := resets |}.

Definition zeroErrorDetail : Codex.CodexErrorDetail :=
  {| Codex.ed_Message := ""; Codex.ed_Type := ""; Codex.ed_Code := Codex.AnyNil;
     Codex.ed_ResetsInSeconds := 0 |}.

Definition unmarshalCodexError (s : string) : option Codex.CodexErrorResponse :=
  m ← parseObject s;
  detail ← objectField decodeErrorDetail m "error";
  Some {| Codex.er_Error := default zeroErrorDetail detail |}.

Definition unmarshalOpenAIError (s : string) : option Codex.OpenAIError :=
  m ← parseObject s;
  message ← stringField m "message";
  type ← stringField m "type";
  Some {| Codex.Code := anyField m "code"; Codex.Message := message;
          Codex.ErrorType := type |}.

Definition stringEntry (kv : string * Value) : option (string * string) :=
  match kv.2 with
  | Str s => Some (kv.1, s)
  | Null => Some (kv.1, "")
  | _ => None
  end.

Definition unmarshalStringMap (s : string) : option (gmap string string) :=
  m ← parseObject s;
  list_to_map <$> mapM stringEntry (map_to_list m).

Definition decodeChoice (v : Value) : option Codex.ChatCompletionStreamChoice :=
  match v with
  | Object m =>
      index ← intField m "index";
      delta ← objectField (λ d, stringField d "content") m "delta";
      Some {| Codex.sc_Index := index; Codex.sc_DeltaContent := default "" delta;
              Codex.sc_FinishReason := anyField m "finish_reason" |}
  | _ => None
  end.

Definition unmarshalChatStream (s : string) : option Codex.ChatCompletionStreamResponse :=
  m ← parseObject s;
  id ← stringField m "id";
  object ← stringField m "object";
  created ← intField m "created";
  model ← stringField m "model";
  choices ← match m !! "choices" with
            | None | Some Null => Some []
            | Some (Array l) => mapM decodeChoice l
            | Some _ => None
            end;
  Some {| Codex.cs_ID := id; Codex.cs_Object := object; Codex.cs_Created := created;
          Codex.cs_Model := model; Codex.cs_Choices := choices |}.

(** Writing: a string literal, for strings of printable ASCII. *)
Fixpoint escape (s : string) : option string :=
  match s with
  | EmptyString => Some ""
  | String c s' =>
      let n := Strings.code c in
      rest ← escape s';
      if ((n =? 34) || (n =? 92))%N then Some (String backslash (String c rest))
      else if ((32 <=? n) && (n <? 127) && negb (n =? 60) && negb (n =? 62) && negb (n =? 38))%N
      then Some (String c rest)
      else None
  end.

Definition writeString (s : string) : option string :=
  body ← escape s;
  Some (String quote body +:+ String quote "").

Definition digitChar (d : nat) : ascii := Strings.byte (48 + N.of_nat d).

Fixpoint writeNat (fuel n : nat) (acc : string) : string :=
  match fuel with
  | O => acc
  | S fuel' =>
      let acc := String (digitChar (n mod 10)) acc in
      if (n <? 10)%nat then acc else writeNat fuel' (n / 10) acc
  end.

Definition writeInt (z : Z) : string :=
  let n := Z.abs_nat z in
  (if (z <? 0)%Z then "-" else "") +:+ writeNat (S n) n "".

Definition writeAny (a : Codex.AnyString) : option string :=
  match a with
  | Codex.AnyNil => Some "null"
  | Codex.AnyStr s => writeString s
  | Codex.AnyOther => None
  end.

Definition writeChoice (c : Codex.ChatCompletionStreamChoice) : option string :=
  content ← writeString (Codex.sc_DeltaContent c);
  finish ← writeAny (Codex.sc_FinishReason c);
  Some (text "{'index':" +:+ writeInt (Codex.sc_Index c)
        +:+ text ",'delta':{'content':" +:+ content
        +:+ text "},'finish_reason':" +:+ finish +:+ "}").

Definition marshalChatStream (r : Codex.ChatCompletionStreamResponse) : option string :=
  id ← writeString (Codex.cs_ID r);
  object ← writeString (Codex.cs_Object r);
  model ← writeString (Codex.cs_Model r);
  choices ← mapM writeChoice (Codex.cs_Choices r);
  Some (text "{'id':" +:+ id +:+ text ",'object':" +:+ object
        +:+ text ",'created':" +:+ writeInt (Codex.cs_Created r)
        +:+ text ",'model':" +:+ model
        +:+ text ",'choices':[" +:+ Strings.Join choices "," +:+ "]}").

Definition codec : Codex.JSON :=
  {| Codex.unmarshalCodexError := unmarshalCodexError;
     Codex.unmarshalOpenAIError := unmarshalOpenAIError;
     Codex.unmarshalStringMap := unmarshalStringMap;
     Codex.unmarshalResponsesStream := unmarshalResponsesStream;
     Codex.marshalChatStream := marshalChatStream;
     Codex.unmarshalChatStream := unmarshalChatStream |}.

End Json.

(** ** Sample inputs, on which the properties are run *)

(** An upstream 401 whose error payload has the given message. *)
Definition unauthorized (message : string) : Codex.Response :=
  {| Codex.StatusCode := 401;
     Codex.Body := Some (Json.text "{'error':{'message':'" +:+ message
                         +:+ Json.text "','type':'invalid_request_error'}}") |}.

(** A channel whose header overrides set Authorization and Host. *)
Definition overridingProvider : Codex.Provider :=
  {| Codex.Context := None;
     Codex.channel :=
       {| Codex.Other := "";
          Codex.ModelHeaders :=
            Some (Json.text "{'Authorization':'Bearer custom','Host':'proxy.example'}") |};
     Codex.AccountID := "acct_1" |}.

(** Chat-path data lines and the events they carry. *)
Definition deltaLine (text : string) : string :=
  Json.text "data: {'type':'response.output_text.delta','delta':'" +:+ text
  +:+ Json.text "'}".

Definition completedLine : string :=
  Json.text "data: {'type':'response.completed','response':{'id':'resp_1','status':'completed','usage':{'input_tokens':2,'output_tokens':3,'total_tokens':5}}}".

Definition deltaEvent (text : string) : Codex.OpenAIResponsesStreamResponses :=
  {| Codex.rs_Type := "response.output_text.delta";
     Codex.rs_Delta := Codex.AnyStr text;
     Codex.rs_Response := None |}.

Definition completedEvent : Codex.OpenAIResponsesStreamResponses :=
  {| Codex.rs_Type := "response.completed";
     Codex.rs_Delta := Codex.AnyNil;
     Codex.rs_Response :=
       Some {| Codex.rr_ID := "resp_1"; Codex.rr_Status := "completed";
               Codex.rr_Usage :=
                 Some {| Codex.InputTokens := 2; Codex.OutputTokens := 3;
                         Codex.ru_TotalTokens := 5 |} |} |}.

(** Parameter sets and bodies of the merge engine. *)
Definition removeAndAdd : gmap string Base.Value :=
  {[ "remove_params" := Base.Array [Base.Str "a.b"];
     "a" := Base.Object {[ "b" := Base.Number 1 ]} ]}.

Definition scalarBody : gmap string Base.Value :=
  {[ "a" := Base.Number 5 ]}.

Definition nestedBody : gmap string Base.Value :=
  {[ "a" := Base.Object {[ "b" := Base.Number 7; "c" := Base.Null ]} ]}.

Definition streamingBody : gmap string Base.Value :=
  {[ "stream" := Base.Bool true; "model" := Base.Str "gpt-5" ]}.


Definition setStream : gmap string Base.Value :=
  {[ "stream" := Base.Bool false; "temperature" := Base.Number 1;
     "remove_params" := Base.Array [Base.Str "user.id"] ]}.




Definition assistantMessage : Codex.InputResponses :=
  {| Codex.i_Type := "message"; Codex.i_Role := "assistant";
     Codex.i_Content := Codex.ContentString "Hello."; Codex.i_Rest := "" |}.

Definition userMessage : Codex.InputResponses :=
  {| Codex.i_Type := "message"; Codex.i_Role := "user";
     Codex.i_Content := Codex.ContentString "How far is the moon?";
     Codex.i_Rest := "" |}.

(** Deliveries of the Responses stream: a completed event as the passthrough
    handler sends it, and the one of the repository's test, whose data line
    has no space after the colon. *)
Definition completedBlock : string :=
  "event: response.completed" +:+ Codex.newline +:+ completedLine
  +:+ Codex.newline +:+ Codex.newline.

Definition completedWithoutSpace : string :=
  "event: response.completed" +:+ Codex.newline
  +:+ Json.text "data:{'type':'response.completed','response':{'id':'resp_1','status':'completed','usage':{'input_tokens':3,'output_tokens':5,'total_tokens':8}}}"
  +:+ Codex.newline.

Definition createdBlock : string :=
  "event: response.created" +:+ Codex.newline
  +:+ Json.text "data: {'type':'response.created','response':{'id':'resp_1','status':'in_progress'}}"
  +:+ Codex.newline +:+ Codex.newline.

(** A token endpoint that is busy at the first attempt and answers the
    second, and credentials that expire at the given time. *)
Definition recovering : OAuth.World :=
  {| OAuth.endpoint :=
       λ attempt, if (attempt =? 0)%nat then OAuth.Responded 503 "busy"
                  else OAuth.Responded 200 "new";
     OAuth.unmarshalError := λ _, None;
     OAuth.unmarshalResponse :=
       λ body, Some {| OAuth.r_IDToken := ""; OAuth.r_AccessToken := body;
                       OAuth.r_ExpiresIn := 3600; OAuth.r_RefreshToken := "";
                       OAuth.r_TokenType := "Bearer"; OAuth.r_Scope := "" |};
     OAuth.extractAccountIDFromJWT := λ _, "";
     OAuth.now := λ _, 1000%Z |}.

Definition expiringAt (expiresAt : Z) : OAuth.OAuth2Credentials :=
  {| OAuth.AccessToken := "at"; OAuth.RefreshToken := "rt"; OAuth.ClientID := "";
     OAuth.AccountID := ""; OAuth.ExpiresAt := Some expiresAt;
     OAuth.TokenType := ""; OAuth.Scopes := [] |}.

Definition overwriting : gmap string Base.Value :=
  {[ "overwrite" := Base.Bool true;
     "a" := Base.Object {[ "b" := Base.Number 1 ]} ]}.

Definition temperatureBody : gmap string Base.Value :=
  {[ "temperature" := Base.Number 0; "model" := Base.Str "gpt-5" ]}.

Definition perModel : gmap string Base.Value :=
  {[ "per_model" := Base.Bool true; "temperature" := Base.Number 1;
     "remove_params" := Base.Array [Base.Str "model"];
     "gpt-4" := Base.Object {[ "temperature" := Base.Number 2 ]} ]}.
(* ===================================================================== *)
(** * Part II: properties                                                 *)
(* ===================================================================== *)

(** Closing a goal about concrete inputs by running the code. *)
#[local] Ltac run := vm_compute; first [reflexivity | discriminate].
#[local] Ltac carried := split; [run | split; run].
#[local] Ltac round_trip := eexists; split; run.

(** ** Byte strings *)
Section StringFacts.
Import Strings.

#[local] Abbreviation bytes := list_ascii_of_string.

Lemma bytes_app a b : bytes (a +:+ b) = bytes a ++ bytes b.
Proof. induction a as [|c a IH]; simpl; [done|]. by rewrite IH. Qed.

Lemma bytes_inj a b : bytes a = bytes b → a = b.
Proof.
  intros H. rewrite <- (string_of_list_ascii_of_string a), H.
  apply string_of_list_ascii_of_string.
Qed.

Lemma bytes_length s : length (bytes s) = String.length s.
Proof. induction s as [|c s IH]; simpl; [done|]. by rewrite IH. Qed.

Lemma bytes_take n s : bytes (sliceTo n s) = take n (bytes s).
Proof.
  revert s. induction n as [|n IH]; intros [|c s]; simpl; try done.
  by rewrite IH.
Qed.

Lemma bytes_drop n s : bytes (sliceFrom n s) = drop n (bytes s).
Proof. revert s. induction n as [|n IH]; intros [|c s]; simpl; try done. Qed.

Lemma bytes_nil s : bytes s = [] → s = "".
Proof. by destruct s. Qed.

Lemma string_app_assoc a b c : (a +:+ b) +:+ c = a +:+ b +:+ c.
Proof. apply bytes_inj. by rewrite !bytes_app, app_assoc. Qed.

Lemma string_app_nil_r a : a +:+ "" = a.
Proof. apply bytes_inj. by rewrite bytes_app, app_nil_r. Qed.

Lemma string_app_length a b :
  String.length (a +:+ b) = (String.length a + String.length b)%nat.
Proof. by rewrite <- !bytes_length, bytes_app, length_app. Qed.

(** [HasPrefix s p] holds exactly when the first len(p) bytes of s are p. *)
Lemma HasPrefix_take s p :
  HasPrefix s p = true ↔ take (String.length p) (bytes s) = bytes p.
Proof.
  revert s. induction p as [|c p IH]; intros s; simpl.
  - by rewrite take_0.
  - destruct s as [|d s]; simpl; [done|].
    destruct (Ascii.eqb_spec d c) as [->|Hne].
    + rewrite IH. split; [by intros ->|by intros [= ->]].
    + split; [done|]. by intros [= ? _].
Qed.

Lemma HasPrefix_app p r : HasPrefix (p +:+ r) p = true.
Proof.
  apply HasPrefix_take. rewrite bytes_app, <- bytes_length.
  by rewrite take_app_length.
Qed.

Lemma HasPrefix_inv s p : HasPrefix s p = true → s = p +:+ sliceFrom (String.length p) s.
Proof.
  intros H%HasPrefix_take. apply bytes_inj.
  rewrite bytes_app, bytes_drop, <- H. by rewrite take_drop.
Qed.






End StringFacts.


(** ** TrimSpace *)
Section TrimFacts.
Import Strings.

#[local] Abbreviation bytes := list_ascii_of_string.
#[local] Abbreviation lineFeed := (byte 10).


Lemma leadingSpace_shorter l l' : leadingSpace l = Some l' → length l' < length l.
Proof.
  destruct l as [|c [|d [|e l]]]; simpl; repeat case_match; intros; simplify_eq/=; lia.
Qed.

Lemma trailingSpace_shorter r r' : trailingSpace r = Some r' → length r' < length r.
Proof.
  destruct r as [|c [|d [|e r]]]; simpl; repeat case_match; intros; simplify_eq/=; lia.
Qed.

Lemma trailingSpace_suffix r r' : trailingSpace r = Some r' → ∃ k, r = k ++ r'.
Proof.
  destruct r as [|c [|d [|e r]]]; simpl; repeat case_match; intros; simplify_eq/=;
    first [by exists [c] | by exists [c; d] | by exists [c; d; e]].
Qed.

Lemma leadingSpace_app_None p q : leadingSpace (p ++ q) = None → leadingSpace p = None.
Proof.
  destruct p as [|c [|d [|e p]]]; simpl; try done.
  - by destruct (asciiSpace c).
  - destruct (asciiSpace c); [done|]. by destruct (isSpace2 c d).
  - by repeat case_match.
Qed.

Lemma trimWith_fixed strip fuel l : strip l = None → trimWith strip fuel l = l.
Proof. intros H. destruct fuel; simpl; [done|]. by rewrite H. Qed.

Lemma trimWith_ind (P : list ascii → Prop) strip fuel :
  (∀ l l', P l → strip l = Some l' → P l') →
  ∀ l, P l → P (trimWith strip fuel l).
Proof.
  intros Hstep. induction fuel as [|fuel IH]; intros l Hl; simpl; [done|].
  destruct (strip l) as [l'|] eqn:E; [|done]. apply IH. by eapply Hstep.
Qed.

Lemma trimWith_done (strip : list ascii → option (list ascii)) (fuel : nat) :
  (∀ l l' : list ascii, strip l = Some l' → length l' < length l) →
  ∀ l : list ascii, (length l <= fuel)%nat → strip (trimWith strip fuel l) = None.
Proof.
  intros Hshort. induction fuel as [|fuel IH]; intros l Hl; simpl.
  - destruct (strip l) as [l'|] eqn:E; [|done]. apply Hshort in E. lia.
  - destruct (strip l) as [l'|] eqn:E; [|done]. apply IH.
    apply Hshort in E. lia.
Qed.

Lemma bytes_TrimSpace s : bytes (TrimSpace s) = trimRight (trimLeft (bytes s)).
Proof. apply list_ascii_of_string_of_list_ascii. Qed.

(** What TrimSpace returns has no white space left at either end. *)
Lemma TrimSpace_trimmed s : trimmed (TrimSpace s).
Proof.
  unfold trimmed. rewrite bytes_TrimSpace.
  set (l1 := trimLeft (bytes s)).
  assert (Hlead : leadingSpace l1 = None).
  { apply trimWith_done; [apply leadingSpace_shorter|done]. }
  unfold trimRight. rewrite reverse_involutive. split.
  - assert (∃ q, l1 = reverse (trimWith trailingSpace (length l1) (reverse l1)) ++ q)
      as [q Hq].
    { apply (trimWith_ind (λ r, ∃ q, l1 = reverse r ++ q)).
      - intros r r' [q Hq] [k ->]%trailingSpace_suffix.
        exists (reverse k ++ q). by rewrite Hq, reverse_app, app_assoc.
      - exists []. by rewrite reverse_involutive, app_nil_r. }
    apply (leadingSpace_app_None _ q). by rewrite <- Hq.
  - apply trimWith_done; [apply trailingSpace_shorter|].
    by rewrite length_reverse.
Qed.

(** TrimSpace changes nothing in a string without white space at its ends. *)
Lemma TrimSpace_fixed s : trimmed s → TrimSpace s = s.
Proof.
  intros [Hlead Htrail]. apply bytes_inj. rewrite bytes_TrimSpace.
  unfold trimLeft. rewrite (trimWith_fixed _ _ _ Hlead).
  unfold trimRight. rewrite (trimWith_fixed _ _ _ Htrail).
  apply reverse_involutive.
Qed.

Lemma TrimSpace_idempotent s : TrimSpace (TrimSpace s) = TrimSpace s.
Proof. apply TrimSpace_fixed, TrimSpace_trimmed. Qed.




End TrimFacts.

(** ** Lines of a server-sent event *)
Section LineFacts.
Import Strings.

#[local] Abbreviation bytes := list_ascii_of_string.
#[local] Abbreviation lineFeed := (byte 10).
#[local] Abbreviation feed := (String (byte 10) "").

Lemma Index_feed_step c s :
  Index (String c s) feed
  = if Ascii.eqb c lineFeed then Some 0%nat else S <$> Index s feed.
Proof. simpl. by destruct (Ascii.eqb c _). Qed.

Lemma Index_feed_cons c s :
  Index (String c s) feed = None → c ≠ lineFeed ∧ Index s feed = None.
Proof.
  rewrite Index_feed_step. destruct (Ascii.eqb_spec c lineFeed); [done|].
  by destruct (Index s feed).
Qed.

Lemma Index_feed_app a b :
  Index a feed = None → Index b feed = None → Index (a +:+ b) feed = None.
Proof.
  intros Ha Hb. induction a as [|c a IH]; [done|].
  apply Index_feed_cons in Ha as [Hc Ha].
  change (Index (String c (a +:+ b)) feed = None). rewrite Index_feed_step.
  destruct (Ascii.eqb_spec c lineFeed) as [|_]; [done|]. by rewrite IH.
Qed.

Lemma splitByte_line cur a b :
  Index a feed = None →
  splitByte lineFeed cur (a +:+ String lineFeed b)
  = (cur +:+ a) :: splitByte lineFeed "" b.
Proof.
  revert cur. induction a as [|c a IH]; intros cur H.
  - change (splitByte lineFeed cur (String lineFeed b)
            = (cur +:+ "") :: splitByte lineFeed "" b).
    cbn [splitByte]. rewrite Ascii.eqb_refl.
    by rewrite string_app_nil_r.
  - apply Index_feed_cons in H as [Hc H].
    change (splitByte lineFeed cur (String c (a +:+ String lineFeed b))
            = (cur +:+ String c a) :: splitByte lineFeed "" b).
    cbn [splitByte].
    destruct (Ascii.eqb_spec c lineFeed); [done|].
    rewrite IH by done. by rewrite string_app_assoc.
Qed.

Lemma splitByte_last cur a :
  Index a feed = None → splitByte lineFeed cur a = [cur +:+ a].
Proof.
  revert cur. induction a as [|c a IH]; intros cur H.
  - cbn [splitByte]. by rewrite string_app_nil_r.
  - apply Index_feed_cons in H as [Hc H]. cbn [splitByte].
    destruct (Ascii.eqb_spec c lineFeed); [done|].
    rewrite IH by done. by rewrite string_app_assoc.
Qed.

(** Lines without a line feed, joined by line feeds and split again. *)
Lemma Split_Join lines :
  lines ≠ [] →
  Forall (λ line, Index line feed = None) lines →
  Split (Join lines feed) lineFeed = lines.
Proof.
  intros Hne Hall. unfold Split.
  induction Hall as [|line lines Hline Hall IH]; [done|].
  destruct lines as [|line' lines].
  - simpl. by rewrite splitByte_last.
  - change (Join (line :: line' :: lines) feed)
      with (line +:+ String lineFeed (Join (line' :: lines) feed)).
    rewrite splitByte_line by done. simpl. f_equal. by apply IH.
Qed.

Lemma trailingSpace_before_ascii b x rest :
  b ≠ [] → trailingSpace b = None → (code x <? 128)%N = true →
  trailingSpace (b ++ x :: rest) = None.
Proof.
  intros Hne Hb Hx.
  assert (H194 : (code x =? 194)%N = false) by (apply N.eqb_neq; apply N.ltb_lt in Hx; lia).
  assert (H225 : (code x =? 225)%N = false) by (apply N.eqb_neq; apply N.ltb_lt in Hx; lia).
  assert (H226 : (code x =? 226)%N = false) by (apply N.eqb_neq; apply N.ltb_lt in Hx; lia).
  assert (H227 : (code x =? 227)%N = false) by (apply N.eqb_neq; apply N.ltb_lt in Hx; lia).
  assert (H154 : (code x =? 154)%N = false) by (apply N.eqb_neq; apply N.ltb_lt in Hx; lia).
  assert (H128 : (code x =? 128)%N = false) by (apply N.eqb_neq; apply N.ltb_lt in Hx; lia).
  assert (H129 : (code x =? 129)%N = false) by (apply N.eqb_neq; apply N.ltb_lt in Hx; lia).
  destruct b as [|c [|d [|e b]]]; simpl in *; try done.
  - destruct (asciiSpace c); [done|].
    unfold isSpace2. rewrite H194. simpl.
    destruct rest as [|e rest]; [done|].
    unfold isSpace3. rewrite H154, H128, H129. simpl.
    by rewrite !andb_false_r.
  - destruct (asciiSpace c); [done|]. destruct (isSpace2 d c); [done|].
    unfold isSpace3. by rewrite H225, H226, H227.
  - by repeat case_match.
Qed.

(** A label that starts no white space and ends in an ASCII byte, in front of
    a trimmed text. *)
Lemma trimmed_labelled label x json :
  (∀ l, leadingSpace (bytes label ++ x :: l) = None) →
  (code x <? 128)%N = true →
  trimmed json → json ≠ "" →
  trimmed (label +:+ String x json).
Proof.
  intros Hlabel Hx [_ Htrail] Hne. split.
  - rewrite bytes_app. apply Hlabel.
  - rewrite bytes_app. simpl. rewrite reverse_app, reverse_cons, <- app_assoc. simpl.
    apply trailingSpace_before_ascii; [|done|done].
    intros H%(f_equal length). rewrite length_reverse in H. by destruct json.
Qed.


End LineFacts.
(** ** Token refresh: retry policy *)
Section RefreshProofs.
Import OAuth.
#[local] Open Scope Z_scope.

Variable w : World.
Variable maxRetries : Z.

Lemma isNonRetryableIn_elem errorType es :
  errorType ∈ es → isNonRetryableIn errorType es = true.
Proof.
  induction 1 as [e es | e e' es _ IH]; simpl.
  - by rewrite String.eqb_refl.
  - rewrite IH. by destruct (String.eqb e e').
Qed.

#[local] Ltac next_pass e :=
  exists e; destruct (refreshLoop _ _ _ _ _ _) as [[? ?] ?];
  by rewrite <- app_assoc.

Lemma refreshLoop_retry fuel attempt c lastErr :
  retryable w (endpoint w attempt) = true →
  ∃ e, refreshLoop w maxRetries (S fuel) attempt c lastErr =
       let '(c', r, tr) := refreshLoop w maxRetries fuel (S attempt) c (Some e) in
       (c', r, pass attempt ++ tr).
Proof.
  unfold retryable, pass. intros Hr. cbn [refreshLoop].
  destruct (endpoint w attempt) as [ | | | st body].
  - next_pass CreateRequestError.
  - next_pass SendRequestError.
  - next_pass ReadResponseError.
  - destruct (negb (st =? StatusOK)).
    + destruct (unmarshalError w body) as [errResp|].
      * destruct (isNonRetryableError (Error errResp)); [done|].
        next_pass (RefreshFailed (Error errResp) (ErrorDescription errResp)).
      * next_pass (StatusError st body).
    + destruct (unmarshalResponse w body); [done|].
      next_pass ParseResponseError.
Qed.

Lemma refreshLoop_retries k : ∀ fuel attempt c lastErr,
  (∀ j, (attempt ≤ j < attempt + k)%nat → retryable w (endpoint w j) = true) →
  ∃ lastErr',
    (k = 0%nat → lastErr' = lastErr) ∧
    (k ≠ 0%nat → is_Some lastErr') ∧
    refreshLoop w maxRetries (k + fuel) attempt c lastErr =
      let '(c', r, tr) := refreshLoop w maxRetries fuel (attempt + k) c lastErr' in
      (c', r, passes attempt k ++ tr).
Proof.
  induction k as [|k IH]; intros fuel attempt c lastErr Hall.
  - exists lastErr. split; [done|]. split; [done|]. rewrite Nat.add_0_r. simpl.
    by destruct (refreshLoop _ _ _ _ _ _) as [[c' r] tr].
  - destruct (refreshLoop_retry (k + fuel) attempt c lastErr) as [e He].
    { apply Hall. lia. }
    destruct (IH fuel (S attempt) c (Some e)) as [lastErr' [Hz [Hsome Hk]]].
    { intros j Hj. apply Hall. lia. }
    exists lastErr'. split; [done|]. split.
    { intros _. destruct k; [rewrite Hz; eauto | by apply Hsome]. }
    replace (S k + fuel)%nat with (S (k + fuel)) by lia.
    rewrite He, Hk.
    replace (attempt + S k)%nat with (S attempt + k)%nat by lia.
    destruct (refreshLoop w maxRetries fuel (S attempt + k) c lastErr')
      as [[c' r] tr].
    unfold passes. cbn [seq flat_map]. by rewrite <- app_assoc.
Qed.

Lemma refreshLoop_non_retryable fuel attempt c lastErr st body e :
  endpoint w attempt = Responded st body →
  st ≠ StatusOK →
  unmarshalError w body = Some e →
  isNonRetryableError (Error e) = true →
  refreshLoop w maxRetries (S fuel) attempt c lastErr =
    (c, Some (NonRetryable (Error e) (ErrorDescription e)), pass attempt).
Proof.
  intros Hend Hst Herr Hnon. cbn [refreshLoop]. rewrite Hend.
  destruct (Z.eqb_spec st StatusOK) as [|_]; [done|]. simpl.
  by rewrite Herr, Hnon.
Qed.

(** C8. A non-2xx answer whose error code is in the non-retryable set
    ([invalid_grant] among them) ends [Refresh] at that attempt: the effects
    are exactly the passes up to and including it, so nothing (no sleep, no
    attempt) follows, and when it is the first answer the only effect is that
    one attempt. Any other failure leads to the next pass, until all
    maxRetries + 1 passes are used and [Refresh] fails. *)
Theorem Refresh_retry_policy (c : OAuth2Credentials) :
  RefreshToken c ≠ "" →
  "invalid_grant" ∈ nonRetryableErrors ∧
  (∀ k st body e,
      Z.of_nat k ≤ maxRetries →
      (∀ j, (j < k)%nat → retryable w (endpoint w j) = true) →
      endpoint w k = Responded st body →
      ¬ (200 ≤ st < 300) →
      unmarshalError w body = Some e →
      Error e ∈ nonRetryableErrors →
      Refresh w c maxRetries =
        (c, Some (NonRetryable (Error e) (ErrorDescription e)), passes 0 (S k)) ∧
      (k = 0%nat → passes 0 (S k) = [Try 0%nat])) ∧
  (0 ≤ maxRetries →
   (∀ j, Z.of_nat j ≤ maxRetries → retryable w (endpoint w j) = true) →
   ∃ lastErr,
     Refresh w c maxRetries =
       (c, Some (RetriesExhausted maxRetries (Some lastErr)),
        passes 0 (Z.to_nat (maxRetries + 1)))).
Proof.
  intros Hrt. split; [set_solver|]. unfold Refresh.
  destruct (String.eqb_spec (RefreshToken c) "") as [|_]; [done|]. split.
  - intros k st body e Hk Hall Hend Hst Herr Hin. split; [|by intros ->].
    destruct (refreshLoop_retries k (Z.to_nat (maxRetries + 1) - k) 0 c None)
      as [lastErr' [_ [_ Hrun]]].
    { intros j Hj. apply Hall. lia. }
    replace (k + (Z.to_nat (maxRetries + 1) - k))%nat
      with (Z.to_nat (maxRetries + 1)) in Hrun by lia.
    rewrite Hrun. simpl.
    replace (Z.to_nat (maxRetries + 1) - k)%nat
      with (S (Z.to_nat (maxRetries + 1) - k - 1)) by lia.
    rewrite (refreshLoop_non_retryable _ _ _ _ st body e); try done.
    + f_equal. unfold passes.
      replace (S k) with (k + 1)%nat by lia.
      rewrite seq_app, flat_map_app. simpl. by rewrite app_nil_r.
    + unfold StatusOK. lia.
    + by apply isNonRetryableIn_elem.
  - intros Hmax Hall.
    destruct (refreshLoop_retries (Z.to_nat (maxRetries + 1)) 0 0 c None)
      as [lastErr' [_ [Hsome Hrun]]].
    { intros j Hj. apply Hall. lia. }
    destruct Hsome as [lastErr ->]; [lia|]. exists lastErr.
    rewrite Nat.add_0_r in Hrun. rewrite Hrun. simpl. by rewrite app_nil_r.
Qed.

End RefreshProofs.

(** The first answer is [invalid_grant]: one attempt, no sleep. An endpoint
    that keeps answering with a retryable code uses all four passes of
    maxRetries = 3, sleeping 1 s, 2 s and 4 s in between. *)
Lemma Refresh_retry_policy_witness :
  OAuth.RefreshToken OAuth.sampleCredentials ≠ "" ∧
  OAuth.Refresh (OAuth.rejecting "invalid_grant") OAuth.sampleCredentials 3 =
    (OAuth.sampleCredentials,
     Some (OAuth.NonRetryable "invalid_grant" ""),
     [OAuth.Try 0]) ∧
  ∃ lastErr,
    OAuth.Refresh (OAuth.rejecting "server_error") OAuth.sampleCredentials 3 =
      (OAuth.sampleCredentials,
       Some (OAuth.RetriesExhausted 3 (Some lastErr)),
       [OAuth.Try 0; OAuth.Sleep 1000000000; OAuth.Try 1;
        OAuth.Sleep 2000000000; OAuth.Try 2; OAuth.Sleep 4000000000; OAuth.Try 3]).
Proof.
  split; [discriminate|]. split.
  - pose proof (Refresh_retry_policy (OAuth.rejecting "invalid_grant") 3
                  OAuth.sampleCredentials ltac:(discriminate)) as [_ [H _]].
    edestruct (H 0%nat 400%Z "invalid_grant"
                 {| OAuth.Error := "invalid_grant"; OAuth.ErrorDescription := "" |})
      as [H1 _];
      [lia | intros; lia | reflexivity | lia | reflexivity | set_solver | exact H1].
  - pose proof (Refresh_retry_policy (OAuth.rejecting "server_error") 3
                  OAuth.sampleCredentials ltac:(discriminate)) as [_ [_ H]].
    destruct H as [lastErr H]; [lia | intros; reflexivity |].
    exists lastErr. exact H.
Defined.

(** ** Error handling: the access token in upstream error messages *)
Section ErrorHandleProofs.
Import Codex.

Variable J : JSON.




End ErrorHandleProofs.



(** ** Request headers *)
Section HeaderProofs.
Import Codex.

Variable J : JSON.
Variable p : Provider.

Lemma applyDefaultHeaders_other headers k :
  k ≠ "Host" → k ≠ "User-Agent" → k ≠ "Accept" →
  applyDefaultHeaders J p headers !! k = headers !! k.
Proof.
  intros. unfold applyDefaultHeaders.
  repeat (case_match; simplify_map_eq); done.
Qed.

Lemma applyDefaultHeaders_Host headers :
  applyDefaultHeaders J p headers !! "Host"
  = Some (default "chatgpt.com" (headers !! "Host")).
Proof.
  unfold applyDefaultHeaders.
  repeat (case_match; simplify_map_eq); done.
Qed.

Lemma applyDefaultHeaders_UserAgent headers :
  applyDefaultHeaders J p headers !! "User-Agent"
  = Some (default (default defaultUserAgent (customUserAgent J p))
            (headers !! "User-Agent")).
Proof.
  unfold applyDefaultHeaders.
  repeat (case_match; simplify_map_eq); done.
Qed.

(** C5, amended. Of the headers that the passthrough and the channel
    overrides produced, every key other than Authorization, Content-Type,
    chatgpt-account-id and Accept keeps its value: the Host and User-Agent
    defaults fill a missing key only. Authorization and Content-Type are
    always set by the provider, the account header is set whenever an account
    id is known, and Accept is set last from the stream flag. *)
Theorem requestHeaders_defaults (token : string) (stream : bool) :
  ∃ headers,
    requestHeaders J p (Some token) stream = Some headers ∧
    (∀ k v, earlyHeaders J p !! k = Some v →
            k ∉ ["Authorization"; "Content-Type"; "chatgpt-account-id"; "Accept"] →
            headers !! k = Some v) ∧
    headers !! "Host" = Some (default "chatgpt.com" (earlyHeaders J p !! "Host")) ∧
    headers !! "User-Agent"
      = Some (default (default defaultUserAgent (customUserAgent J p))
                (earlyHeaders J p !! "User-Agent")) ∧
    headers !! "Authorization" = Some ("Bearer " +:+ token) ∧
    headers !! "Content-Type" = Some "application/json" ∧
    headers !! "chatgpt-account-id"
      = (if String.eqb (AccountID p) "" then earlyHeaders J p !! "chatgpt-account-id"
         else Some (AccountID p)) ∧
    headers !! "Accept" = Some (if stream then "text/event-stream" else "application/json").
Proof.
  unfold requestHeaders, getRequestHeadersInternal.
  eexists. split; [done|].
  set (early := earlyHeaders J p).
  set (required := if negb (String.eqb (AccountID p) "") then _ else _).
  assert (Hreq : ∀ k, k ≠ "Authorization" → k ≠ "Content-Type" →
                      k ≠ "chatgpt-account-id" → required !! k = early !! k).
  { intros k ???. unfold required. by case_match; simplify_map_eq. }
  split; [|split; [|split; [|split; [|split; [|split]]]]].
  - intros k v Hk Hnot.
    assert (k ≠ "Authorization" ∧ k ≠ "Content-Type" ∧ k ≠ "chatgpt-account-id"
            ∧ k ≠ "Accept") as (?&?&?&?) by set_solver.
    rewrite lookup_insert_ne by done.
    destruct (decide (k = "Host")) as [->|].
    { rewrite applyDefaultHeaders_Host, Hreq by done. by rewrite Hk. }
    destruct (decide (k = "User-Agent")) as [->|].
    { rewrite applyDefaultHeaders_UserAgent, Hreq by done. by rewrite Hk. }
    rewrite applyDefaultHeaders_other, Hreq by done. done.
  - rewrite lookup_insert_ne by done.
    by rewrite applyDefaultHeaders_Host, Hreq.
  - rewrite lookup_insert_ne by done.
    by rewrite applyDefaultHeaders_UserAgent, Hreq.
  - rewrite lookup_insert_ne by done. rewrite applyDefaultHeaders_other by done.
    unfold required. by case_match; simplify_map_eq.
  - rewrite lookup_insert_ne by done. rewrite applyDefaultHeaders_other by done.
    unfold required. by case_match; simplify_map_eq.
  - rewrite lookup_insert_ne by done. rewrite applyDefaultHeaders_other by done.
    unfold required. destruct (String.eqb (AccountID p) ""); by simplify_map_eq.
  - by rewrite lookup_insert_eq.
Qed.

End HeaderProofs.

(** C5 as stated fails: the Authorization value that the channel override
    set is overwritten by the provider's own, while the Host value stays. *)
Lemma requestHeaders_overwrites_Authorization :
  Codex.earlyHeaders Json.codec overridingProvider !! "Authorization"
    = Some "Bearer custom" ∧
  Codex.requestHeaders Json.codec overridingProvider (Some "T") true
    ≫= (λ headers, headers !! "Authorization") = Some "Bearer T" ∧
  Codex.requestHeaders Json.codec overridingProvider (Some "T") true
    ≫= (λ headers, headers !! "Host") = Some "proxy.example".
Proof. by vm_compute. Qed.

(** ** Chat aggregation *)
Section ChatAggregationProofs.
Import Codex.

Variable J : JSON.
Variable created : Z.
Variable requestModel : string.

Lemma HasPrefix_nonempty line prefix :
  prefix ≠ "" → Strings.HasPrefix line prefix = true → line ≠ "".
Proof. intros Hp H ->. by destruct prefix. Qed.

Lemma HandlerStream_delta usage line event text s :
  carries J line event →
  contentDelta event text →
  marshalChatStream J (convertResponsesStreamToChatStream requestModel event text) = Some s →
  HandlerStream J requestModel usage (Some line) = (usage, [s]).
Proof.
  intros (Hprefix & Hdone & Hparse) (Htype & Hdelta) Hs.
  unfold HandlerStream. fold (payload line).
  destruct (String.eqb_spec line "") as [->|_]; [done|].
  rewrite Hprefix. simpl.
  destruct (String.eqb_spec (payload line) "[DONE]") as [|_]; [done|].
  rewrite Hparse. unfold completedResponse. rewrite Htype. simpl.
  by rewrite Hdelta, Hs.
Qed.

Lemma HandlerStream_completed usage line event response :
  carries J line event →
  rs_Type event = "response.completed" →
  rs_Response event = Some response →
  HandlerStream J requestModel usage (Some line) = (copyUsage usage response, []).
Proof.
  intros (Hprefix & Hdone & Hparse) Htype Hresp.
  unfold HandlerStream. fold (payload line).
  destruct (String.eqb_spec line "") as [->|_]; [done|].
  rewrite Hprefix. simpl.
  destruct (String.eqb_spec (payload line) "[DONE]") as [|_]; [done|].
  rewrite Hparse. unfold completedResponse. rewrite Htype. simpl.
  by rewrite Hresp.
Qed.

Lemma collectChunk_delta acc event text :
  fullContent (collectChunk acc (convertResponsesStreamToChatStream requestModel event text))
    = fullContent acc +:+ text.
Proof.
  unfold collectChunk. simpl.
  destruct (String.eqb_spec text "") as [->|_]; simpl; [|done].
  by rewrite string_app_nil_r.
Qed.

(** The aggregate of two content deltas and the completed event. *)
Lemma aggregateChat_deltas usage l1 l2 l3 e1 e2 e3 a b total :
  carries J l1 e1 → contentDelta e1 a →
  roundTrips J (convertResponsesStreamToChatStream requestModel e1 a) →
  carries J l2 e2 → contentDelta e2 b →
  roundTrips J (convertResponsesStreamToChatStream requestModel e2 b) →
  carries J l3 e3 → completedWith e3 total →
  ∃ response,
    aggregateChat J created requestModel usage [l1; l2; l3] = Some (Built response) ∧
    messageContent response = Some (a +:+ b) ∧
    TotalTokens (cr_Usage response) = total.
Proof.
  intros H1 D1 (s1 & M1 & U1) H2 D2 (s2 & M2 & U2) H3 (T3 & r & u & R3 & Ur & Ut).
  unfold aggregateChat. cbn [runHandlerStream].
  rewrite (HandlerStream_delta usage l1 e1 a s1) by done.
  rewrite (HandlerStream_delta usage l2 e2 b s2) by done.
  rewrite (HandlerStream_completed usage l3 e3 r) by done.
  cbn [map app]. unfold collectStreamResponse. cbn [collectStreamLoop].
  rewrite U1, U2. rewrite String.eqb_refl.
  eexists. split; [done|]. split.
  - unfold messageContent, buildResponse. cbn [cr_Choices cc_Content].
    by rewrite !collectChunk_delta.
  - cbn [buildResponse cr_Usage]. unfold copyUsage. by rewrite Ur.
Qed.

(** C1. Two data lines carrying the content deltas [A] and [B], a data line
    carrying the completed event with total usage 5, then end-of-stream:
    the aggregated chat response has the content [AB] and 5 total tokens. *)
Theorem aggregateChat_AB_5 usage l1 l2 l3 eA eB eC :
  carries J l1 eA → contentDelta eA "A" →
  roundTrips J (convertResponsesStreamToChatStream requestModel eA "A") →
  carries J l2 eB → contentDelta eB "B" →
  roundTrips J (convertResponsesStreamToChatStream requestModel eB "B") →
  carries J l3 eC → completedWith eC 5 →
  ∃ response,
    aggregateChat J created requestModel usage [l1; l2; l3] = Some (Built response) ∧
    messageContent response = Some "AB" ∧
    TotalTokens (cr_Usage response) = 5%Z.
Proof. intros. by eapply (aggregateChat_deltas usage l1 l2 l3 eA eB eC "A" "B"). Qed.

(** The chat collector has one error only: a read error other than
    end-of-stream. *)
Lemma collectStreamLoop_failed usage acc recvs err :
  collectStreamLoop J created usage acc recvs = Some (Failed err) →
  e_Code err = "stream_read_failed".
Proof.
  revert acc. induction recvs as [|recv recvs IH]; intros acc; simpl; [done|].
  destruct recv as [data| |[e|]|]; try done; try apply IH.
  - destruct (unmarshalChatStream J data); apply IH.
  - destruct (String.eqb e EOF); [done|]. by intros [= <-].
Qed.

(** C7, the chat path. A stream that ends at once, with no payload at all,
    makes collectStreamResponse return a response (empty content, finish
    reason stop) and no error; and no stream makes it fail with
    [no response received]. *)
Theorem collectStreamResponse_without_completion usage :
  collectStreamResponse J created usage requestModel [RecvErr (Some EOF)]
    = Some (Built {| cr_ID := ""; cr_Object := "chat.completion"; cr_Created := created;
                     cr_Model := requestModel;
                     cr_Choices := [ {| cc_Index := 0; cc_Role := "assistant";
                                        cc_Content := ""; cc_FinishReason := "stop" |} ];
                     cr_Usage := usage |}) ∧
  collectStreamResponse J created usage requestModel [RecvDataClosed]
    = collectStreamResponse J created usage requestModel [RecvErr (Some EOF)] ∧
  ∀ recvs err,
    collectStreamResponse J created usage requestModel recvs = Some (Failed err) →
    e_Code err = "stream_read_failed".
Proof.
  split; [done|]. split; [done|]. intros recvs err. apply collectStreamLoop_failed.
Qed.

(** The Responses path does what C7 says: when the stream closes or ends
    with end-of-stream and no completed event was seen, the collector fails
    with [no response received]. *)
Lemma collectResponsesLoop_keeps_none usage recvs result usage' :
  collectResponsesLoop J usage None recvs = Some (result, usage') →
  (∀ data event completed,
     RecvData data ∈ recvs →
     unmarshalResponsesStream J (extractJSONFromSSE data) = Some event →
     completedResponse event ≠ Some completed) →
  result = Failed (StringErrorWrapperLocal "no response received" "no_response"
                     StatusInternalServerError)
  ∨ ∃ err, result = Failed (ErrorWrapper err "stream_read_failed" StatusInternalServerError).
Proof.
  revert usage. induction recvs as [|recv recvs IH]; intros usage; simpl; [done|].
  intros Hrun Hnone.
  assert (Hrest : ∀ data event completed,
             RecvData data ∈ recvs →
             unmarshalResponsesStream J (extractJSONFromSSE data) = Some event →
             completedResponse event ≠ Some completed).
  { intros data event completed Hin. apply Hnone. by right. }
  destruct recv as [data| |[e|]|].
  - destruct (String.eqb (Strings.TrimSpace data) ""); [by eapply IH|].
    destruct (String.eqb (extractJSONFromSSE data) ""); [by eapply IH|].
    destruct (unmarshalResponsesStream J (extractJSONFromSSE data)) as [event|] eqn:E;
      [|by eapply IH].
    destruct (completedResponse event) as [completed|] eqn:C; [|by eapply IH].
    destruct (Hnone data event completed); [by left|done|done].
  - left. by simplify_eq.
  - destruct (String.eqb e EOF); simplify_eq; [by left|right; by eexists].
  - by eapply IH.
  - by eapply IH.
Qed.

End ChatAggregationProofs.


(** ** Merging system and developer messages *)
Section MergeSystemProofs.
Import Codex.













End MergeSystemProofs.

(** ** Responses passthrough *)
Section PassthroughProofs.
Import Codex.

Variable J : JSON.

#[local] Abbreviation bytes := list_ascii_of_string.

Lemma HasSuffix_app_r x y suffix :
  (String.length suffix ≤ String.length y)%nat →
  Strings.HasSuffix (x +:+ y) suffix = Strings.HasSuffix y suffix.
Proof.
  intros Hlen. unfold Strings.HasSuffix. rewrite string_app_length.
  destruct (Nat.leb_spec (String.length suffix) (String.length y)) as [_|]; [|lia].
  destruct (Nat.leb_spec (String.length suffix) (String.length x + String.length y))
    as [_|]; [|lia].
  simpl. f_equal. apply bytes_inj.
  rewrite !bytes_drop, bytes_app, drop_app_ge by (rewrite bytes_length; lia).
  f_equal. rewrite bytes_length. lia.
Qed.

Lemma HasSuffix_spec s suffix :
  Strings.HasSuffix s suffix = true ↔ ∃ l, s = l +:+ suffix.
Proof.
  unfold Strings.HasSuffix. rewrite andb_true_iff, Nat.leb_le, String.eqb_eq. split.
  - intros [_ E]. revert E.
    generalize (String.length s - String.length suffix)%nat. intros n <-.
    exists (Strings.sliceTo n s). apply bytes_inj.
    by rewrite bytes_app, bytes_take, bytes_drop, take_drop.
  - intros [l ->]. rewrite string_app_length. split; [lia|].
    apply bytes_inj. rewrite bytes_drop, bytes_app.
    replace (String.length l + String.length suffix - String.length suffix)%nat
      with (length (bytes l)) by (rewrite bytes_length; lia).
    by rewrite drop_app_length.
Qed.

Lemma HasSuffix_snoc x c d :
  Strings.HasSuffix (x +:+ String c "") (String d (String c ""))
  = Strings.HasSuffix x (String d "").
Proof.
  apply eq_true_iff_eq. rewrite !HasSuffix_spec. split.
  - intros [l E]. exists l. apply bytes_inj. apply (f_equal bytes) in E.
    rewrite !bytes_app in *. simpl in *.
    change (d :: [c]) with ([d] ++ [c]) in E. rewrite app_assoc in E.
    by apply app_inv_tail in E.
  - intros [l ->]. exists l. by rewrite string_app_assoc.
Qed.

(** Appending a data line and a terminator to the buffer leaves it ending in
    a blank line exactly when the data line itself ends in a terminator. *)
Lemma blank_line_after_data buffer rawStr :
  rawStr ≠ "" →
  Strings.HasSuffix (buffer +:+ rawStr +:+ newline) (newline +:+ newline)
  = Strings.HasSuffix rawStr newline.
Proof.
  intros Hne. rewrite <- string_app_assoc.
  change (newline +:+ newline) with (String (Strings.byte 10) newline).
  unfold newline. rewrite HasSuffix_snoc. apply HasSuffix_app_r.
  destruct rawStr; [done|simpl; lia].
Qed.

Lemma buffered_app lines lines' :
  buffered (lines ++ lines') = buffered lines +:+ buffered lines'.
Proof.
  induction lines as [|l lines IH]; simpl; [done|].
  by rewrite IH, !string_app_assoc.
Qed.

Lemma open_length buffer rawStr :
  (0 <? String.length (buffer +:+ rawStr +:+ newline))%nat = true.
Proof. rewrite !string_app_length. apply Nat.ltb_lt. simpl. lia. Qed.

Lemma closed_length h : eventBuffer h = "" → (0 <? String.length (eventBuffer h))%nat = false.
Proof. by intros ->. Qed.

(** No open event: every line but the sentinel is sent as it is. *)
Lemma run_passthrough lines : ∀ h,
  eventBuffer h = "" →
  Forall (λ rawStr, Strings.HasPrefix rawStr "event: " = false) lines →
  ∃ h', runResponsesHandler J h lines
        = (h', filter (λ rawStr, isDoneLine rawStr = false) lines)
        ∧ eventBuffer h' = "".
Proof.
  induction lines as [|rawStr lines IH]; intros h Hb Hall; [by exists h|].
  apply Forall_cons in Hall as [Hne Hall]. cbn [runResponsesHandler].
  destruct (isDoneLine rawStr) eqn:Hdone.
  - rewrite filter_cons_False by (by rewrite Hdone).
    unfold isDoneLine in Hdone. apply andb_true_iff in Hdone as [Hd Hs].
    unfold HandlerResponsesStream. rewrite Hne, Hd, Hs, (closed_length h Hb). simpl.
    destruct (IH h Hb Hall) as (h' & -> & Hb'). by exists h'.
  - rewrite filter_cons_True by done.
    unfold isDoneLine in Hdone. unfold HandlerResponsesStream.
    rewrite Hne, (closed_length h Hb).
    destruct (Strings.HasPrefix rawStr "data: ") eqn:Hd; simpl in *.
    + rewrite Hdone.
      destruct (IH (withUsage h (extractUsage J (h_Usage h)
                     (Strings.TrimSpace (Strings.TrimPrefix rawStr "data: "))))
                  Hb Hall) as (h' & -> & Hb').
      by exists h'.
    + destruct (IH h Hb Hall) as (h' & -> & Hb'). by exists h'.
Qed.

(** An open event: lines that are neither event nor data lines accumulate,
    and nothing is sent. *)
Lemma run_accumulates middle : ∀ h,
  eventBuffer h ≠ "" →
  Forall (λ rawStr, Strings.HasPrefix rawStr "event: " = false
                    ∧ Strings.HasPrefix rawStr "data: " = false) middle →
  ∃ h', runResponsesHandler J h middle = (h', [])
        ∧ eventBuffer h' = eventBuffer h +:+ buffered middle
        ∧ eventBuffer h' ≠ "".
Proof.
  induction middle as [|rawStr middle IH]; intros h Hb Hall.
  { exists h. simpl. by rewrite string_app_nil_r. }
  apply Forall_cons in Hall as [[Hne Hnd] Hall]. cbn [runResponsesHandler].
  unfold HandlerResponsesStream. rewrite Hne, Hnd. simpl.
  assert (Hopen : (0 <? String.length (eventBuffer h))%nat = true).
  { apply Nat.ltb_lt. destruct (eventBuffer h); [done|simpl; lia]. }
  rewrite Hopen.
  set (h1 := {| h_Usage := h_Usage h;
                eventBuffer := eventBuffer h +:+ rawStr +:+ newline;
                eventType := eventType h |}).
  destruct (IH h1) as (h' & -> & Hbuf & Hne'); [|done|].
  { simpl. intros E. pose proof (open_length (eventBuffer h) rawStr) as Hl.
    rewrite E in Hl. done. }
  exists h'. split; [done|]. split; [|done].
  rewrite Hbuf. simpl. by rewrite !string_app_assoc.
Qed.

(** C6, amended. With no event open, every line other than the [DONE]
    sentinel is sent as a unit of its own and the sentinel is dropped. After
    an event line, lines that are neither event nor data lines (a blank line
    among them) only accumulate; the buffered text is sent as one unit and the
    buffer reset when a data line that ends in a line terminator is appended,
    which is when the buffer ends in two terminators, or when the sentinel
    arrives; a data line with no terminator accumulates as well. *)
Theorem HandlerResponsesStream_emission (h : CodexResponsesStreamHandler) :
  (∀ lines,
     eventBuffer h = "" →
     Forall (λ rawStr, Strings.HasPrefix rawStr "event: " = false) lines →
     ∃ h', runResponsesHandler J h lines
           = (h', filter (λ rawStr, isDoneLine rawStr = false) lines)
           ∧ eventBuffer h' = "") ∧
  (∀ event middle,
     Strings.HasPrefix event "event: " = true →
     Forall (λ rawStr, Strings.HasPrefix rawStr "event: " = false
                       ∧ Strings.HasPrefix rawStr "data: " = false) middle →
     ∃ h1,
       runResponsesHandler J h (event :: middle) = (h1, []) ∧
       eventBuffer h1 = buffered (event :: middle) ∧
       ∀ data,
         Strings.HasPrefix data "data: " = true →
         ∃ h2 sent,
           HandlerResponsesStream J h1 data = (h2, sent) ∧
           (if isDoneLine data then
              sent = [buffered (event :: middle)] ∧ eventBuffer h2 = ""
            else if Strings.HasSuffix data newline then
              sent = [buffered (event :: middle ++ [data])] ∧ eventBuffer h2 = ""
            else
              sent = [] ∧ eventBuffer h2 = buffered (event :: middle ++ [data]))).
Proof.
  split; [intros lines; apply run_passthrough|].
  intros event middle He Hmid. cbn [runResponsesHandler].
  unfold HandlerResponsesStream at 1. rewrite He.
  set (h0 := {| h_Usage := h_Usage h; eventBuffer := event +:+ newline;
                eventType := Strings.TrimPrefix event "event: " |}).
  destruct (run_accumulates middle h0) as (h1 & -> & Hbuf & Hne); [|done|].
  { simpl. by destruct event. }
  exists h1. split; [done|]. simpl in Hbuf.
  assert (Hb1 : eventBuffer h1 = buffered (event :: middle)).
  { rewrite Hbuf. simpl. by rewrite string_app_assoc. }
  split; [done|]. intros data Hd.
  assert (Hnev : Strings.HasPrefix data "event: " = false).
  { destruct data as [|c data]; [done|]. simpl in *.
    destruct (Ascii.eqb_spec c "d") as [->|]; [done|]. done. }
  assert (Hopen : (0 <? String.length (eventBuffer h1))%nat = true).
  { apply Nat.ltb_lt. destruct (eventBuffer h1); [done|simpl; lia]. }
  unfold HandlerResponsesStream, isDoneLine. rewrite Hnev, Hd, Hopen. simpl.
  destruct (String.eqb _ "[DONE]").
  { eexists _, _. split; [done|]. by rewrite Hb1. }
  rewrite blank_line_after_data by (by destruct data).
  assert (Happ : eventBuffer h1 +:+ data +:+ newline
                 = buffered (event :: middle ++ [data])).
  { rewrite Hb1. rewrite (app_comm_cons middle [data] event), buffered_app.
    simpl. by rewrite string_app_nil_r. }
  destruct (Strings.HasSuffix data newline).
  - eexists _, _. split; [done|]. by rewrite Happ.
  - eexists _, _. split; [done|]. by rewrite Happ.
Qed.

End PassthroughProofs.

(** ** The streams on actual lines *)

Lemma aggregateChat_AB_5_witness :
  ∃ response,
    Codex.aggregateChat Json.codec 1700000000 "gpt-5" Codex.zeroUsage
      [deltaLine "A"; deltaLine "B"; completedLine] = Some (Codex.Built response) ∧
    Codex.messageContent response = Some "AB" ∧
    Codex.TotalTokens (Codex.cr_Usage response) = 5%Z.
Proof.
  refine (aggregateChat_AB_5 Json.codec 1700000000 "gpt-5" Codex.zeroUsage
           (deltaLine "A") (deltaLine "B") completedLine
           (deltaEvent "A") (deltaEvent "B") completedEvent _ _ _ _ _ _ _ _).
  - carried.
  - split; reflexivity.
  - round_trip.
  - carried.
  - split; reflexivity.
  - round_trip.
  - carried.
  - split; [reflexivity|]; eexists _, _; repeat split; reflexivity.
Defined.

(** C6 as stated fails. An event line, a data line and the blank line that
    ends the event, none of them with a terminator of its own: the buffer ends
    in two terminators and nothing is sent. With terminated lines, the blank
    line after an event line is not what sends the buffer either. And with no
    event open the [DONE] data line is not forwarded. *)
Lemma HandlerResponsesStream_blank_line_sends_nothing :
  (∃ h, Codex.runResponsesHandler Json.codec Codex.newHandler
          ["event: a"; "data: x"; ""] = (h, []) ∧
        Codex.eventBuffer h = Codex.buffered ["event: a"; "data: x"; ""] ∧
        Strings.HasSuffix (Codex.eventBuffer h) (Codex.newline +:+ Codex.newline) = true) ∧
  (∃ h, Codex.runResponsesHandler Json.codec Codex.newHandler
          ["event: a" +:+ Codex.newline; Codex.newline] = (h, []) ∧
        Strings.HasSuffix (Codex.eventBuffer h) (Codex.newline +:+ Codex.newline) = true) ∧
  Codex.runResponsesHandler Json.codec Codex.newHandler ["data: [DONE]"]
    = (Codex.newHandler, []).
Proof.
  split; [|split].
  - eexists; split; [run | split; run].
  - eexists; split; run.
  - run.
Qed.

Lemma HandlerResponsesStream_emission_witness :
  ∃ h1,
    Codex.runResponsesHandler Json.codec Codex.newHandler
      ["event: response.created" +:+ Codex.newline; "id: 7" +:+ Codex.newline] = (h1, []) ∧
    ∃ h2,
      Codex.HandlerResponsesStream Json.codec h1 ("data: {}" +:+ Codex.newline)
        = (h2, [Codex.buffered ["event: response.created" +:+ Codex.newline;
                                "id: 7" +:+ Codex.newline;
                                "data: {}" +:+ Codex.newline]]) ∧
      Codex.eventBuffer h2 = "".
Proof.
  destruct (proj2 (HandlerResponsesStream_emission Json.codec Codex.newHandler)
              ("event: response.created" +:+ Codex.newline)
              ["id: 7" +:+ Codex.newline] eq_refl)
    as (h1 & Hrun & _ & Hdata).
  { repeat constructor. }
  exists h1. split; [exact Hrun|].
  destruct (Hdata ("data: {}" +:+ Codex.newline) eq_refl) as (h2 & sent & Hstep & Hcase).
  change (sent = [Codex.buffered ["event: response.created" +:+ Codex.newline;
                                "id: 7" +:+ Codex.newline;
                                "data: {}" +:+ Codex.newline]] ∧ Codex.eventBuffer h2 = "") in Hcase.
  destruct Hcase as [-> Hbuf].
  exists h2. split; [exact Hstep | exact Hbuf].
Defined.

(** ** The parameter merge engine *)
Section MergeProofs.
Import Base.

Lemma DeepMergeMap_lookup existing new k :
  DeepMergeMap existing new !! k = mergeAt (existing !! k) (new !! k).
Proof.
  unfold DeepMergeMap. cbn [deepMerge]. revert k.
  apply (map_fold_weak_ind
           (λ result m, ∀ k, result !! k = mergeAt (existing !! k) (m !! k))).
  - intros k. by rewrite lookup_empty.
  - intros i x m result Hi IH k. unfold mergeEntry.
    destruct (decide (k = i)) as [->|Hne].
    + rewrite lookup_insert_eq. specialize (IH i). rewrite Hi in IH. simpl in IH.
      rewrite IH. unfold mergeAt.
      destruct (existing !! i) as [[| | | | |existingMap]|]; simpl;
        try (by rewrite lookup_insert_eq).
      destruct x; by rewrite lookup_insert_eq.
    + rewrite lookup_insert_ne by done. rewrite <- IH.
      destruct (result !! i) as [[| | | | |existingMap]|];
        try (by rewrite lookup_insert_ne).
      destruct x; by rewrite lookup_insert_ne.
Qed.

Lemma DeepMergeMap_empty_l new : DeepMergeMap ∅ new = new.
Proof.
  apply map_eq. intros k. rewrite DeepMergeMap_lookup, lookup_empty.
  unfold mergeAt. by destruct (new !! k).
Qed.

Lemma DeepMergeMap_empty_r existing : DeepMergeMap existing ∅ = existing.
Proof. apply map_eq. intros k. by rewrite DeepMergeMap_lookup, lookup_empty. Qed.

Lemma addParams_lookup shouldOverwrite requestMap customParamsModel k :
  map_fold (addParam shouldOverwrite) requestMap customParamsModel !! k
  = addAt shouldOverwrite k (requestMap !! k) (customParamsModel !! k).
Proof.
  revert k.
  apply (map_fold_weak_ind
           (λ result m, ∀ k, result !! k
                             = addAt shouldOverwrite k (requestMap !! k) (m !! k))).
  - intros k. by rewrite lookup_empty.
  - intros i x m result Hi IH k. unfold addParam.
    destruct (decide (k = i)) as [->|Hne].
    + rewrite lookup_insert_eq. specialize (IH i). rewrite Hi in IH. simpl in IH.
      unfold addAt. destruct (ignoredKey i); [done|].
      destruct shouldOverwrite; [by rewrite lookup_insert_eq|].
      rewrite IH.
      destruct (requestMap !! i) as [[| | | | |existingMap]|] eqn:E; simpl;
        rewrite ?IH, ?E; try done; try (by rewrite lookup_insert_eq).
      destruct x; rewrite ?IH, ?E; try done. by rewrite lookup_insert_eq.
    + rewrite lookup_insert_ne by done. rewrite <- IH.
      destruct (ignoredKey i); [done|].
      destruct shouldOverwrite; [by rewrite lookup_insert_ne|].
      destruct (result !! i) as [[| | | | |existingMap]|];
        try done; try (by rewrite lookup_insert_ne).
      destruct x; try done. by rewrite lookup_insert_ne.
Qed.

(** The removal of a path touches the key of its first part only. *)
Lemma removeParts_other parts current k :
  head parts ≠ Some k → removeParts parts current !! k = current !! k.
Proof.
  destruct parts as [|part [|part' parts']]; simpl; intros Hk; [done| |].
  - rewrite lookup_delete_ne; [done|]. by intros ->.
  - destruct (current !! part) as [[| | | | |next]|]; try done.
    rewrite lookup_insert_ne; [done|]. by intros ->.
Qed.

Lemma removeAll_as_paths paramsList requestMap :
  removeAll paramsList requestMap
  = foldl (λ m parts, removeParts parts m) requestMap (removedPaths paramsList).
Proof.
  revert requestMap. induction paramsList as [|v rest IH]; intros m; simpl; [done|].
  destruct v; simpl; by rewrite IH.
Qed.

Lemma removeParams_as_paths customParamsModel requestMap :
  removeParams customParamsModel requestMap
  = foldl (λ m parts, removeParts parts m) requestMap (removePaths customParamsModel).
Proof.
  unfold removeParams, removePaths.
  destruct (customParamsModel !! "remove_params") as [[| | | |l|]|]; try done.
  apply removeAll_as_paths.
Qed.

Lemma removePaths_other paths requestMap k :
  Forall (λ parts, head parts ≠ Some k) paths →
  foldl (λ m parts, removeParts parts m) requestMap paths !! k = requestMap !! k.
Proof.
  revert requestMap. induction paths as [|parts paths IH]; intros m Hall; [done|].
  apply Forall_cons in Hall as [Hp Hall]. simpl.
  rewrite IH by done. by apply removeParts_other.
Qed.

(** The shape of a call that is not cut short. *)
Lemma ApplyCustomParams_lookup requestMap customParams modelName skipPreAddCheck k :
  applies customParams skipPreAddCheck = true →
  ApplyCustomParams requestMap customParams modelName skipPreAddCheck !! k
  = addAt (flag customParams "overwrite") k
      (removeParams (paramsForModel customParams modelName) requestMap !! k)
      (paramsForModel customParams modelName !! k).
Proof.
  unfold applies, ApplyCustomParams. intros Happ.
  destruct (negb skipPreAddCheck && flag customParams "pre_add"); [done|].
  destruct (decide (customParams = ∅)) as [->|_].
  - unfold paramsForModel, flag, removeParams. by rewrite !lookup_empty.
  - apply addParams_lookup.
Qed.

End MergeProofs.

Section MergeClaims.
Import Base.

Lemma removeParts_None parts current k :
  current !! k = None → removeParts parts current !! k = None.
Proof.
  intros Hk. destruct parts as [|part [|part' parts']]; simpl; [done| |].
  - destruct (decide (part = k)) as [->|]; [by rewrite lookup_delete_eq|].
    by rewrite lookup_delete_ne.
  - destruct (current !! part) as [[| | | | |next]|] eqn:E; try done.
    destruct (decide (part = k)) as [->|]; [congruence|].
    by rewrite lookup_insert_ne.
Qed.





(** C4, amended. In a call that the pre_add check does not cut short, with
    remove_params = [a.b] and a value added at the nested path a.b, the final
    body has the added value at a.b when overwrite is true or the body's
    entry at a is absent or a map: the removal runs first, on the body as it
    came in. (Without overwrite, an entry at a that is no map is kept.) *)
Theorem ApplyCustomParams_remove_then_add
    (requestMap customParams newMap : gmap string Value) (modelName : string)
    (skipPreAddCheck : bool) (v : Value) :
  applies customParams skipPreAddCheck = true →
  paramsForModel customParams modelName !! "remove_params" = Some (Array [Str "a.b"]) →
  paramsForModel customParams modelName !! "a" = Some (Object newMap) →
  newMap !! "b" = Some v →
  flag customParams "overwrite" = true ∨ requestMap !! "a" = None
    ∨ (∃ existingMap, requestMap !! "a" = Some (Object existingMap)) →
  lookupPath ["a"; "b"]
    (Object (ApplyCustomParams requestMap customParams modelName skipPreAddCheck))
  = Some v.
Proof.
  intros Happ Hremove Ha Hb Hcases. cbn [lookupPath].
  rewrite ApplyCustomParams_lookup by done. rewrite Ha.
  unfold removeParams. rewrite Hremove. cbn [removeAll].
  change (removeNestedParam requestMap "a.b") with (removeParts ["a"; "b"] requestMap).
  unfold addAt. change (ignoredKey "a") with false. cbn [removeParts].
  destruct (flag customParams "overwrite"); [simpl; by rewrite Hb|].
  destruct Hcases as [?|[Hnone|[existingMap Hmap]]]; [done| |].
  - rewrite !Hnone. simpl. by rewrite Hb.
  - rewrite Hmap, lookup_insert_eq. simpl.
    by rewrite DeepMergeMap_lookup, lookup_delete_eq, Hb.
Qed.

End MergeClaims.



Lemma ApplyCustomParams_remove_then_add_witness :
  Base.lookupPath ["a"; "b"]
    (Base.Object (Base.ApplyCustomParams nestedBody removeAndAdd "gpt-5" false))
  = Some (Base.Number 1).
Proof.
  refine (ApplyCustomParams_remove_then_add nestedBody removeAndAdd
            {[ "b" := Base.Number 1 ]} "gpt-5" false (Base.Number 1) _ _ _ _ _).
  - run.
  - run.
  - run.
  - run.
  - right. right. eexists. run.
Defined.

(** C4 as stated fails: a body whose entry at a is the number 5 keeps it,
    and the added value is not in the final body. *)
Lemma ApplyCustomParams_keeps_scalar :
  Base.ApplyCustomParams scalarBody removeAndAdd "gpt-5" false
  = {[ "a" := Base.Number 5; "remove_params" := Base.Array [Base.Str "a.b"] ]} ∧
  Base.lookupPath ["a"; "b"]
    (Base.Object (Base.ApplyCustomParams scalarBody removeAndAdd "gpt-5" false))
  = None.
Proof. split; run. Qed.

(** ** Applying the same parameters again *)
Section Idempotence.
Import Base.

#[local] Ltac by_keys k :=
  apply map_eq; intros k;
  repeat (rewrite ?lookup_insert, ?lookup_delete; case_decide; simplify_eq);
  try done.

Lemma depthSize_lookup m k v :
  m !! k = Some v → (depthSize v < depthSize (Object m))%nat.
Proof.
  intros Hk. cbn [depthSize]. rewrite <- (insert_delete_id m k v Hk).
  rewrite map_fold_insert_L.
  - lia.
  - intros. lia.
  - apply lookup_delete_eq.
Qed.

(** Induction over the maps nested in a map. *)
Lemma nested_map_ind (P : gmap string Value → Prop) :
  (∀ m, (∀ k m', m !! k = Some (Object m') → P m') → P m) → ∀ m, P m.
Proof.
  intros Hstep m.
  assert (H : ∀ n m, (depthSize (Object m) < n)%nat → P m);
    [|apply (H (S (depthSize (Object m)))); lia].
  clear m. induction n as [|n IH]; intros m Hn; [lia|].
  apply Hstep. intros k m' Hk. apply IH.
  apply depthSize_lookup in Hk. lia.
Qed.

Lemma removeParts_last last current :
  removeParts [last] current = delete last current.
Proof. done. Qed.

Lemma removeParts_next part part' parts' current :
  removeParts (part :: part' :: parts') current
  = match current !! part with
    | Some (Object next) =>
        <[part := Object (removeParts (part' :: parts') next)]> current
    | _ => current
    end.
Proof. done. Qed.

Lemma removeParts_empty parts : removeParts parts ∅ = ∅.
Proof. destruct parts as [|part [|part' parts']]; simpl; [done|by_keys k|done]. Qed.

(** What it means for a path to remove nothing from a map. *)
Lemma removeParts_fixed_last last current :
  removeParts [last] current = current → current !! last = None.
Proof. simpl. intros <-. apply lookup_delete_eq. Qed.

Lemma removeParts_fixed_next part part' parts' current next :
  removeParts (part :: part' :: parts') current = current →
  current !! part = Some (Object next) →
  removeParts (part' :: parts') next = next.
Proof.
  rewrite removeParts_next. intros Hfix Hnext. rewrite Hnext in Hfix.
  apply (f_equal (λ m, m !! part)) in Hfix.
  rewrite lookup_insert_eq, Hnext in Hfix. by simplify_eq.
Qed.

Lemma removeParts_idem parts : ∀ current,
  removeParts parts (removeParts parts current) = removeParts parts current.
Proof.
  induction parts as [|part parts IH]; intros current; [done|].
  destruct parts as [|part' parts']; rewrite ?removeParts_last, ?removeParts_next.
  - by_keys k.
  - destruct (current !! part) as [[| | | | |next]|] eqn:E;
      rewrite ?removeParts_next, ?E; try done.
    rewrite lookup_insert_eq. rewrite IH. by_keys k.
Qed.

Lemma removeParts_comm p : ∀ q current,
  removeParts p (removeParts q current) = removeParts q (removeParts p current).
Proof.
  induction p as [|a p IH]; intros q current; [done|].
  destruct q as [|b q]; [done|].
  destruct p as [|a' p']; destruct q as [|b' q'];
    rewrite ?removeParts_last, ?removeParts_next.
  - by_keys k.
  - destruct (decide (a = b)) as [->|Hne].
    + rewrite lookup_delete_eq.
      destruct (current !! b) as [[| | | | |next]|]; try done. by_keys k.
    + rewrite lookup_delete_ne by done.
      destruct (current !! b) as [[| | | | |next]|]; try done. by_keys k.
  - destruct (decide (a = b)) as [->|Hne].
    + rewrite lookup_delete_eq.
      destruct (current !! b) as [[| | | | |next]|]; try done. by_keys k.
    + rewrite lookup_delete_ne by done.
      destruct (current !! a) as [[| | | | |next]|]; try done. by_keys k.
  - destruct (decide (a = b)) as [->|Hne].
    + destruct (current !! b) as [[| | | | |next]|] eqn:E; rewrite ?E; try done.
      rewrite !lookup_insert_eq. rewrite (IH (b' :: q') next). by_keys k.
    + destruct (current !! a) as [[| | | | |nexta]|] eqn:Ea;
        destruct (current !! b) as [[| | | | |nextb]|] eqn:Eb;
        rewrite ?lookup_insert_ne, ?Ea, ?Eb by done; try done.
      by_keys k.
Qed.

Lemma removePaths_comm q paths : ∀ current,
  removeParts q (foldl (λ m parts, removeParts parts m) current paths)
  = foldl (λ m parts, removeParts parts m) (removeParts q current) paths.
Proof.
  induction paths as [|p paths IH]; intros current; simpl; [done|].
  by rewrite IH, removeParts_comm.
Qed.

(** Every path of the list removes nothing from what the list left. *)
Lemma removePaths_fixed q paths : ∀ current,
  q ∈ paths →
  removeParts q (foldl (λ m parts, removeParts parts m) current paths)
  = foldl (λ m parts, removeParts parts m) current paths.
Proof.
  induction paths as [|p paths IH]; intros current Hq; [by apply elem_of_nil in Hq|].
  apply elem_of_cons in Hq as [->|Hq]; simpl.
  - by rewrite removePaths_comm, removeParts_idem.
  - by apply IH.
Qed.

(** *** What nested removals leave of a deep merge *)

Lemma between_merge existing new x :
  between existing new x → DeepMergeMap x new = DeepMergeMap existing new.
Proof.
  intros H.
  induction H using between_mut
    with (P0 := λ e n x _, mergeAt x n = mergeAt e n).
  - apply map_eq. intros k. by rewrite !DeepMergeMap_lookup.
  - done.
  - unfold mergeAt.
    destruct newValue; simpl in *; try done;
      destruct e as [[| | | | |?]|]; simpl in *; done.
  - unfold mergeAt. destruct o as [Hn|He];
      destruct newValue; simpl in *; try done;
      destruct e as [[| | | | |?]|]; simpl in *; done.
  - unfold mergeAt. rewrite IHbetween.
    destruct e as [[| | | | |?]|]; simpl; try done;
      by rewrite DeepMergeMap_empty_l.
Qed.

Lemma between_refl new : ∀ existing, between existing new (DeepMergeMap existing new).
Proof.
  induction new as [new IH] using nested_map_ind. intros existing.
  constructor. intros k. rewrite DeepMergeMap_lookup. unfold mergeAt.
  destruct (new !! k) as [newValue|] eqn:E; [|constructor].
  destruct newValue as [| | | | |newMap];
    try (destruct (existing !! k) as [[| | | | |?]|]; by constructor).
  assert (Hempty : between ∅ newMap newMap).
  { rewrite <- (DeepMergeMap_empty_l newMap) at 2. by eapply IH. }
  destruct (existing !! k) as [[| | | | |existingMap]|] eqn:Ee;
    apply at_object; simpl; try exact Hempty.
  by eapply IH.
Qed.

Lemma betweenAt_object_inv e n x :
  betweenAt e n (Some (Object x)) →
  (n = None ∧ e = Some (Object x))
  ∨ (∃ newMap, n = Some (Object newMap) ∧ between (asMap e) newMap x).
Proof.
  inversion 1; subst; [by left|by simplify_eq/=|right; by eexists].
Qed.

Lemma between_remove q : ∀ existing new x,
  removeParts q existing = existing →
  between existing new x →
  between existing new (removeParts q x).
Proof.
  induction q as [|part q IH]; intros existing new x Hfix Hb; [done|].
  destruct Hb as [existing new x Hall]. constructor. intros k.
  destruct q as [|part' q'].
  - rewrite removeParts_last.
    destruct (decide (k = part)) as [->|Hne]; [|by rewrite lookup_delete_ne].
    rewrite lookup_delete_eq. rewrite (removeParts_fixed_last _ _ Hfix).
    destruct (new !! part) as [newValue|]; [|constructor].
    apply at_gone. by right.
  - rewrite removeParts_next.
    destruct (x !! part) as [[| | | | |next]|] eqn:Ex; try apply Hall.
    destruct (decide (k = part)) as [->|Hne]; [|by rewrite lookup_insert_ne].
    rewrite lookup_insert_eq. specialize (Hall part). rewrite Ex in Hall.
    apply betweenAt_object_inv in Hall as [[Hn He]|(newMap & Hn & Hnested)];
      rewrite Hn.
    + (* the entry is the one of [existing], which the path leaves alone *)
      rewrite (removeParts_fixed_next _ _ _ _ _ Hfix He), <- He. constructor.
    + apply at_object. apply IH; [|done].
      destruct (existing !! part) as [[| | | | |existingMap]|] eqn:Ee;
        try apply removeParts_empty.
      by eapply removeParts_fixed_next.
Qed.

(** *** The same for the loop of ApplyCustomParams *)

Lemma addableAt_add shouldOverwrite key x1 value x :
  addableAt shouldOverwrite key x1 value x →
  addAt shouldOverwrite key x value = addAt shouldOverwrite key x1 value.
Proof.
  unfold addableAt, addAt. destruct value as [value|]; [|by intros ->].
  destruct (ignoredKey key); [by intros ->|].
  destruct shouldOverwrite; [done|].
  destruct x1 as [[| | | | |existingMap]|]; try (by intros ->).
  - destruct value as [| | | | |newMap]; try (by intros ->).
    intros (x' & -> & Hb). by rewrite (between_merge _ _ _ Hb).
  - destruct value as [| | | | |newMap]; try (by intros [->| ->]).
    intros [->|(x' & -> & Hb)]; [done|].
    by rewrite (between_merge _ _ _ Hb), DeepMergeMap_empty_l.
Qed.

Lemma addableAt_refl shouldOverwrite key x1 value :
  addableAt shouldOverwrite key x1 value (addAt shouldOverwrite key x1 value).
Proof.
  unfold addableAt, addAt. destruct value as [value|]; [|done].
  destruct (ignoredKey key); [done|].
  destruct shouldOverwrite; [done|].
  destruct x1 as [[| | | | |existingMap]|]; try done.
  - destruct value as [| | | | |newMap]; try done.
    eexists. split; [done|]. apply between_refl.
  - destruct value as [| | | | |newMap]; try (by right).
    right. eexists. split; [done|].
    rewrite <- (DeepMergeMap_empty_l newMap) at 2. apply between_refl.
Qed.

Lemma addableAt_remove shouldOverwrite q (b1 params x : gmap string Value) :
  removeParts q b1 = b1 →
  (∀ k, addableAt shouldOverwrite k (b1 !! k) (params !! k) (x !! k)) →
  ∀ k, addableAt shouldOverwrite k (b1 !! k) (params !! k) (removeParts q x !! k).
Proof.
  intros Hfix Hall k.
  destruct q as [|part [|part' q']]; [done| |].
  - rewrite removeParts_last.
    destruct (decide (k = part)) as [->|Hne]; [|by rewrite lookup_delete_ne].
    rewrite lookup_delete_eq. rewrite (removeParts_fixed_last _ _ Hfix).
    unfold addableAt. destruct (params !! part) as [value|]; [|done].
    destruct (ignoredKey part); [done|]. destruct shouldOverwrite; [done|].
    destruct value; by left.
  - rewrite removeParts_next.
    destruct (x !! part) as [[| | | | |next]|] eqn:Ex; try apply Hall.
    destruct (decide (k = part)) as [->|Hne]; [|by rewrite lookup_insert_ne].
    rewrite lookup_insert_eq. specialize (Hall part). rewrite Ex in Hall.
    assert (Hsame : b1 !! part = Some (Object next) →
                    Some (Object (removeParts (part' :: q') next)) = b1 !! part).
    { intros He. by rewrite (removeParts_fixed_next _ _ _ _ _ Hfix He). }
    revert Hall. unfold addableAt.
    destruct (params !! part) as [value|]; [|by intros He; apply Hsame].
    destruct (ignoredKey part); [by intros He; apply Hsame|].
    destruct shouldOverwrite; [done|].
    destruct (b1 !! part) as [[| | | | |existingMap]|] eqn:Eb; try done.
    + destruct value as [| | | | |newMap];
        try (intros [= <-]; by apply Hsame).
      intros (x' & [= <-] & Hb). eexists. split; [done|].
      apply between_remove; [|done]. by eapply removeParts_fixed_next.
    + destruct value as [| | | | |newMap]; try (by intros [|]).
      intros [|(x' & [= <-] & Hb)]; [done|]. right. eexists. split; [done|].
      apply between_remove; [apply removeParts_empty|done].
Qed.

Lemma addableAt_removePaths shouldOverwrite paths (b1 params : gmap string Value) :
  ∀ x,
  Forall (λ q, removeParts q b1 = b1) paths →
  (∀ k, addableAt shouldOverwrite k (b1 !! k) (params !! k) (x !! k)) →
  ∀ k, addableAt shouldOverwrite k (b1 !! k) (params !! k)
         (foldl (λ m parts, removeParts parts m) x paths !! k).
Proof.
  induction paths as [|q paths IH]; intros x Hfix Hall; [done|].
  apply Forall_cons in Hfix as [Hq Hfix]. simpl.
  apply IH; [done|]. by apply addableAt_remove.
Qed.

(** C3, amended. On bodies and parameter sets taken as values, so that
    every application works on a parameter set of its own, applying the same
    parameters a second time changes nothing, whatever the flags are. *)
Theorem ApplyCustomParams_idempotent
    (requestMap customParams : gmap string Value) (modelName : string)
    (skipPreAddCheck : bool) :
  ApplyCustomParams
    (ApplyCustomParams requestMap customParams modelName skipPreAddCheck)
    customParams modelName skipPreAddCheck
  = ApplyCustomParams requestMap customParams modelName skipPreAddCheck.
Proof.
  destruct (applies customParams skipPreAddCheck) eqn:Happ.
  - apply map_eq. intros k.
    rewrite (ApplyCustomParams_lookup (ApplyCustomParams _ _ _ _)) by done.
    rewrite (ApplyCustomParams_lookup requestMap) by done.
    set (params := paramsForModel customParams modelName).
    set (b1 := removeParams params requestMap).
    apply addableAt_add. rewrite removeParams_as_paths.
    apply addableAt_removePaths.
    + apply Forall_forall. intros q Hq. unfold b1.
      rewrite removeParams_as_paths. by apply removePaths_fixed.
    + intros k'. rewrite ApplyCustomParams_lookup by done.
      apply addableAt_refl.
  - unfold applies in Happ. unfold ApplyCustomParams.
    destruct (negb skipPreAddCheck && flag customParams "pre_add"); [|done].
    by destruct (decide (customParams = ∅)).
Qed.

End Idempotence.

(** C3 as stated fails when the two calls are given the same parameter map,
    as two calls in Go are: the body is empty, the overwrite flag is absent
    and nothing is skipped. The first call stores the parameters' map at a
    into the body; the removal of a.b in the second call then empties that
    map, which is the parameters' own. *)
Lemma ApplyCustomParams_twice_shares_the_nested_map :
  Shared.applyTwice 8 (Base.Object ∅) (Base.Object removeAndAdd) "gpt-5" false
  = (Some (Base.Object (Base.ApplyCustomParams ∅ removeAndAdd "gpt-5" false)),
     Some (Base.Object {[ "a" := Base.Object ∅;
                          "remove_params" := Base.Array [Base.Str "a.b"] ]}))
  ∧ Base.ApplyCustomParams ∅ removeAndAdd "gpt-5" false !! "a"
    = Some (Base.Object {[ "b" := Base.Number 1 ]}).
Proof. split; run. Qed.

(** ** Further properties of the merge of system messages *)
Section MergeSystemExtras.
Import Codex.

Lemma isSystem_withContent input content :
  isSystemInputMessage (withContent input content) = isSystemInputMessage input.
Proof. done. Qed.

Lemma isSystem_prepend input systemText :
  isSystemInputMessage (prependSystemTextToInputMessage input systemText)
  = isSystemInputMessage input.
Proof.
  unfold prependSystemTextToInputMessage.
  repeat case_match; try done; apply isSystem_withContent.
Qed.

Lemma mergeLoop_no_system inputs : ∀ merged pendingSystemText,
  Forall (λ input, isSystemInputMessage input = false) merged →
  Forall (λ input, isSystemInputMessage input = false)
    (mergeLoop inputs merged pendingSystemText).1.
Proof.
  induction inputs as [|input inputs IH]; intros merged pending Hmerged; simpl; [done|].
  destruct (isSystemInputMessage input) eqn:Hsystem; [by apply IH|].
  destruct (_ && _); apply IH; apply Forall_app; split; try done;
    apply Forall_singleton; [by rewrite isSystem_prepend|done].
Qed.

Lemma mergeLoop_without_system inputs : ∀ merged,
  Forall (λ input, isSystemInputMessage input = false) inputs →
  mergeLoop inputs merged [] = (merged ++ inputs, []).
Proof.
  induction inputs as [|input inputs IH]; intros merged Hall; simpl.
  { by rewrite app_nil_r. }
  apply Forall_cons in Hall as [-> Hall]. simpl.
  rewrite IH by done. by rewrite <- app_assoc.
Qed.

Lemma mergeInputs_without_system inputs :
  Forall (λ input, isSystemInputMessage input = false) inputs →
  mergeInputs inputs = inputs.
Proof.
  intros Hall. unfold mergeInputs. by rewrite mergeLoop_without_system.
Qed.

Lemma mergeInputs_no_system inputs :
  Forall (λ input, isSystemInputMessage input = false) (mergeInputs inputs).
Proof.
  unfold mergeInputs.
  pose proof (mergeLoop_no_system inputs [] [] (Forall_nil_2 _)) as Hall.
  destruct (mergeLoop inputs [] []) as [merged pending]. simpl in Hall.
  destruct (0 <? length pending)%nat; [|done].
  apply Forall_app. split; [done|]. by apply Forall_singleton.
Qed.

(** X1. Whatever the inputs are, the merged list holds no system or
    developer message: each output is an input that was none, such an input
    with text put in front, or the user message made for the texts left. *)
Theorem mergeInputs_leaves_no_system_message (inputs : list InputResponses) :
  Forall (λ input, isSystemInputMessage input = false) (mergeInputs inputs).
Proof. apply mergeInputs_no_system. Qed.

(** X2. Inputs without a system or developer message come out as they went
    in: nothing is reordered, rewritten or added. *)
Theorem mergeInputs_without_system_message (inputs : list InputResponses) :
  Forall (λ input, isSystemInputMessage input = false) inputs →
  mergeInputs inputs = inputs.
Proof. apply mergeInputs_without_system. Qed.

(** X3. Merging what has been merged changes nothing. *)
Theorem mergeInputs_idempotent (inputs : list InputResponses) :
  mergeInputs (mergeInputs inputs) = mergeInputs inputs.
Proof. apply mergeInputs_without_system, mergeInputs_no_system. Qed.

End MergeSystemExtras.

Lemma mergeInputs_without_system_message_witness :
  Codex.mergeInputs [assistantMessage; userMessage] = [assistantMessage; userMessage].
Proof.
  apply mergeInputs_without_system_message. by repeat constructor.
Defined.

(** ** The collectors and the end of a stream *)
Section CollectorExtras.
Import Codex.

Variable J : JSON.

Lemma collectResponsesLoop_data usage response data recvs :
  collectResponsesLoop J usage response (RecvData data :: recvs)
  = match completedIn J data with
    | Some completed =>
        collectResponsesLoop J (copyUsage usage completed) (Some completed) recvs
    | None => collectResponsesLoop J usage response recvs
    end.
Proof.
  unfold completedIn. simpl.
  destruct (String.eqb (Strings.TrimSpace data) ""); [done|].
  destruct (String.eqb (extractJSONFromSSE data) ""); [done|].
  by destruct (unmarshalResponsesStream J (extractJSONFromSSE data)).
Qed.

Lemma collectResponsesLoop_quiet pre : ∀ usage response recvs,
  forallb (carriesNoResponse J) pre = true →
  collectResponsesLoop J usage response (pre ++ recvs)
  = collectResponsesLoop J usage response recvs.
Proof.
  induction pre as [|recv pre IH]; intros usage response recvs Hpre; [done|].
  apply andb_true_iff in Hpre as [Hrecv Hpre].
  rewrite <- app_comm_cons.
  destruct recv as [data| |[e|]|]; try done; try (by apply IH).
  rewrite collectResponsesLoop_data. simpl in Hrecv.
  destruct (completedIn J data); [done|]. by apply IH.
Qed.

Lemma collectResponsesLoop_goesOn pre : ∀ usage response recvs,
  forallb goesOn pre = true →
  ∃ usage' response',
    collectResponsesLoop J usage response (pre ++ recvs)
    = collectResponsesLoop J usage' response' recvs.
Proof.
  induction pre as [|recv pre IH]; intros usage response recvs Hpre; [by eexists _, _|].
  apply andb_true_iff in Hpre as [Hrecv Hpre].
  rewrite <- app_comm_cons.
  destruct recv as [data| |[e|]|]; try done; try (by apply IH).
  rewrite collectResponsesLoop_data.
  destruct (completedIn J data); by apply IH.
Qed.

Lemma collectResponsesLoop_end usage response last rest :
  endsStream last = true →
  collectResponsesLoop J usage response (last :: rest)
  = Some (match response with
          | Some response => Built response
          | None => Failed noResponse
          end, usage).
Proof.
  destruct last as [data| |[e|]|]; try done; simpl.
  - by destruct response.
  - intros ->. by destruct response.
Qed.

(** X4. A Responses stream that ends, by io.EOF or by the data channel
    being closed, before any delivery carried a completed response makes
    collectResponsesStreamResponse fail with no_response and status 500; the
    usage counters are as they were. Blank deliveries, deliveries without a
    data line, payloads that do not decode and events of other types are all
    passed over. *)
Theorem collectResponsesStreamResponse_no_response
    (usage : Usage) (pre : list Recv) (last : Recv) (rest : list Recv) :
  forallb (carriesNoResponse J) pre = true →
  endsStream last = true →
  collectResponsesStreamResponse J usage (pre ++ last :: rest)
  = Some (Failed noResponse, usage).
Proof.
  intros Hpre Hlast. unfold collectResponsesStreamResponse.
  rewrite collectResponsesLoop_quiet by done.
  by rewrite collectResponsesLoop_end.
Qed.

(** X5. The response returned is the one of the last completed event
    delivered before the stream ends, and when that response has usage
    counters the provider's counters are those. Deliveries after the end of
    the stream are never read. *)
Theorem collectResponsesStreamResponse_last_completed
    (usage : Usage) (pre post rest : list Recv) (data : string)
    (response : OpenAIResponsesResponses) (last : Recv) :
  forallb goesOn pre = true →
  completedIn J data = Some response →
  forallb (carriesNoResponse J) post = true →
  endsStream last = true →
  ∃ usage',
    collectResponsesStreamResponse J usage
      (pre ++ RecvData data :: post ++ last :: rest)
    = Some (Built response, usage') ∧
    ∀ u, rr_Usage response = Some u → usage' = usageOf u.
Proof.
  intros Hpre Hdata Hpost Hlast. unfold collectResponsesStreamResponse.
  destruct (collectResponsesLoop_goesOn pre usage None
              (RecvData data :: post ++ last :: rest) Hpre)
    as (usage1 & response1 & ->).
  rewrite collectResponsesLoop_data, Hdata.
  rewrite collectResponsesLoop_quiet by done.
  rewrite collectResponsesLoop_end by done.
  eexists. split; [done|]. intros u Hu. unfold copyUsage. by rewrite Hu.
Qed.

(** X6. An error other than io.EOF on the error channel ends the
    aggregation with stream_read_failed and status 500, the error's text as
    the message, also when a completed response has been received before. *)
Theorem collectResponsesStreamResponse_read_failure
    (usage : Usage) (pre rest : list Recv) (err : string) :
  forallb goesOn pre = true →
  err ≠ EOF →
  ∃ usage',
    collectResponsesStreamResponse J usage (pre ++ RecvErr (Some err) :: rest)
    = Some (Failed (readFailure err), usage').
Proof.
  intros Hpre Herr. unfold collectResponsesStreamResponse.
  destruct (collectResponsesLoop_goesOn pre usage None
              (RecvErr (Some err) :: rest) Hpre)
    as (usage1 & response1 & ->).
  simpl. destruct (String.eqb_spec err EOF) as [|_]; [done|]. by eexists.
Qed.

Lemma collectStreamLoop_goesOn created pre : ∀ usage acc recvs,
  forallb goesOn pre = true →
  ∃ acc',
    collectStreamLoop J created usage acc (pre ++ recvs)
    = collectStreamLoop J created usage acc' recvs.
Proof.
  induction pre as [|recv pre IH]; intros usage acc recvs Hpre; [by eexists|].
  apply andb_true_iff in Hpre as [Hrecv Hpre].
  rewrite <- app_comm_cons.
  destruct recv as [data| |[e|]|]; try done; try (by apply IH).
  simpl. destruct (unmarshalChatStream J data); by apply IH.
Qed.

(** X7. The chat collector: an error other than io.EOF ends the
    aggregation with stream_read_failed and status 500, whatever content has
    been collected; no partial response is returned. *)
Theorem collectStreamResponse_read_failure
    (created : Z) (usage : Usage) (requestModel : string)
    (pre rest : list Recv) (err : string) :
  forallb goesOn pre = true →
  err ≠ EOF →
  collectStreamResponse J created usage requestModel
    (pre ++ RecvErr (Some err) :: rest)
  = Some (Failed (readFailure err)).
Proof.
  intros Hpre Herr. unfold collectStreamResponse.
  destruct (collectStreamLoop_goesOn created pre usage
              {| fullContent := ""; responseID := ""; model := requestModel;
                 finishReason := "stop" |}
              (RecvErr (Some err) :: rest) Hpre) as (acc' & ->).
  simpl. by destruct (String.eqb_spec err EOF) as [|_].
Qed.

End CollectorExtras.

Lemma collectResponsesStreamResponse_no_response_witness :
  Codex.collectResponsesStreamResponse Json.codec Codex.zeroUsage
    ([Codex.RecvData createdBlock; Codex.RecvData completedWithoutSpace]
     ++ Codex.RecvErr (Some Codex.EOF) :: [])
  = Some (Codex.Failed Codex.noResponse, Codex.zeroUsage).
Proof.
  apply collectResponsesStreamResponse_no_response; run.
Defined.

Lemma collectResponsesStreamResponse_last_completed_witness :
  ∃ usage',
    Codex.collectResponsesStreamResponse Json.codec Codex.zeroUsage
      ([Codex.RecvData createdBlock] ++ Codex.RecvData completedBlock
       :: [Codex.RecvErrClosed] ++ Codex.RecvDataClosed :: [])
    = Some (Codex.Built {| Codex.rr_ID := "resp_1"; Codex.rr_Status := "completed";
                           Codex.rr_Usage :=
                             Some {| Codex.InputTokens := 2; Codex.OutputTokens := 3;
                                     Codex.ru_TotalTokens := 5 |} |}, usage') ∧
    ∀ u, Some {| Codex.InputTokens := 2; Codex.OutputTokens := 3;
                 Codex.ru_TotalTokens := 5 |} = Some u →
         usage' = Codex.usageOf u.
Proof.
  refine (collectResponsesStreamResponse_last_completed Json.codec Codex.zeroUsage
            [Codex.RecvData createdBlock] [Codex.RecvErrClosed] [] completedBlock
            _ Codex.RecvDataClosed _ _ _ _); run.
Defined.

Lemma collectResponsesStreamResponse_read_failure_witness :
  ∃ usage',
    Codex.collectResponsesStreamResponse Json.codec Codex.zeroUsage
      ([Codex.RecvData completedBlock]
       ++ Codex.RecvErr (Some "connection reset") :: [])
    = Some (Codex.Failed (Codex.readFailure "connection reset"), usage').
Proof.
  apply collectResponsesStreamResponse_read_failure; [run|discriminate].
Defined.

Lemma collectStreamResponse_read_failure_witness :
  Codex.collectStreamResponse Json.codec 0 Codex.zeroUsage "gpt-5"
    ([Codex.RecvData "{}"] ++ Codex.RecvErr (Some "connection reset") :: [])
  = Some (Codex.Failed (Codex.readFailure "connection reset")).
Proof.
  apply collectStreamResponse_read_failure; [run|discriminate].
Defined.

(** ** The data line of a delivery *)
Section DataLineExtras.
Import Codex.

#[local] Abbreviation notDataLine :=
  (λ line, Strings.Index line newline = None
           ∧ Strings.HasPrefix (Strings.TrimSpace line) "data: " = false).

Lemma firstDataLine_skip pre lines :
  Forall notDataLine pre → firstDataLine (pre ++ lines) = firstDataLine lines.
Proof.
  induction 1 as [|line pre [_ Hline] _ IH]; [done|].
  rewrite <- app_comm_cons. cbn [firstDataLine]. by rewrite Hline.
Qed.


Lemma split_lines pre line post :
  Forall notDataLine pre →
  Strings.Index line newline = None →
  Forall (λ line, Strings.Index line newline = None) post →
  Strings.Split (Strings.Join (pre ++ line :: post) newline) (Strings.byte 10)
  = pre ++ line :: post.
Proof.
  intros Hpre Hline Hpost. apply Split_Join; [by destruct pre|].
  apply Forall_app. split; [|by constructor].
  eapply Forall_impl; [exact Hpre|]. by intros ? [? _].
Qed.

(** X8. extractJSONFromSSE returns the payload of the first data line of a
    delivery whole: for lines joined by line feeds, with no data line before
    it, a payload without white space at its ends comes back as it is,
    whatever lines follow. *)
Theorem extractJSONFromSSE_first_data_line (pre post : list string) (json : string) :
  Forall notDataLine pre →
  Forall (λ line, Strings.Index line newline = None) post →
  Strings.Index json newline = None →
  Strings.trimmed json → json ≠ "" →
  extractJSONFromSSE (Strings.Join (pre ++ ("data: " +:+ json) :: post) newline) = json.
Proof.
  intros Hpre Hpost Hjson Htrimmed Hne. unfold extractJSONFromSSE.
  rewrite split_lines; [|done|by apply (Index_feed_app "data: ")|done].
  rewrite firstDataLine_skip by done. cbn [firstDataLine].
  rewrite TrimSpace_fixed.
  - by rewrite (HasPrefix_app "data: ").
  - by apply (trimmed_labelled "data:" " ").
Qed.


End DataLineExtras.

Lemma extractJSONFromSSE_first_data_line_witness :
  Codex.extractJSONFromSSE completedBlock
  = Json.text "{'type':'response.completed','response':{'id':'resp_1','status':'completed','usage':{'input_tokens':2,'output_tokens':3,'total_tokens':5}}}".
Proof.
  refine (eq_trans _
            (extractJSONFromSSE_first_data_line ["event: response.completed"] [""; ""]
               (Json.text "{'type':'response.completed','response':{'id':'resp_1','status':'completed','usage':{'input_tokens':2,'output_tokens':3,'total_tokens':5}}}")
               _ _ _ _ _)).
  - run.
  - repeat constructor.
  - repeat constructor.
  - run.
  - split; run.
  - discriminate.
Defined.


(** ** The errors the handler surfaces *)
Section ErrorHandleExtras.
Import Codex.

Variable J : JSON.

Lemma string_app_nonempty_r a b : b ≠ "" → a +:+ b ≠ "".
Proof.
  intros Hb H%(f_equal String.length). rewrite string_app_length in H.
  destruct b; [done|]. simpl in H. lia.
Qed.

Lemma string_app_nonempty_l a b : a ≠ "" → a +:+ b ≠ "".
Proof.
  intros Ha H%(f_equal String.length). rewrite string_app_length in H.
  destruct a; [done|]. simpl in H. lia.
Qed.

Lemma replaceLoop_nonempty fuel s old new :
  s ≠ "" → new ≠ "" → Strings.replaceLoop fuel s old new ≠ "".
Proof.
  intros Hs Hnew. destruct fuel as [|fuel]; simpl; [done|].
  destruct (Strings.Index s old); [|done].
  by apply string_app_nonempty_r, string_app_nonempty_l.
Qed.

Lemma scrub_nonempty accessToken message :
  message ≠ "" → scrub accessToken message ≠ "".
Proof.
  intros Hne. unfold scrub, Strings.ReplaceAll.
  destruct (negb _); [|done]. destruct (String.eqb _ _); [done|].
  by apply replaceLoop_nonempty.
Qed.

(** X10. Every error the handler returns has a message: a body that cannot
    be read, that decodes as neither error payload, or whose message is empty
    gives no error at all, and scrubbing the token never empties a message. *)
Theorem RequestErrorHandle_message_not_empty
    (accessToken : string) (resp : Response) (e : OpenAIError) :
  RequestErrorHandle J accessToken resp = Some e → Message e ≠ "".
Proof.
  unfold RequestErrorHandle, codexError.
  destruct (Body resp) as [bodyBytes|]; [|done].
  destruct (unmarshalCodexError J bodyBytes) as [codexErrorResp|].
  - destruct (String.eqb_spec (ed_Message (er_Error codexErrorResp)) "") as [|Hne];
      simpl.
    + destruct (unmarshalOpenAIError J bodyBytes) as [openAIError|]; [|done].
      destruct (String.eqb_spec (Message openAIError) "") as [|Hne']; [done|].
      intros [= <-]. by apply scrub_nonempty.
    + intros [= <-]. by apply scrub_nonempty.
  - destruct (unmarshalOpenAIError J bodyBytes) as [openAIError|]; [|done].
    destruct (String.eqb_spec (Message openAIError) "") as [|Hne']; [done|].
    intros [= <-]. by apply scrub_nonempty.
Qed.

End ErrorHandleExtras.

Lemma RequestErrorHandle_message_not_empty_witness :
  Codex.Message {| Codex.Code := Codex.AnyNil; Codex.Message := "xxxxx";
                   Codex.ErrorType := "invalid_request_error" |} ≠ "".
Proof.
  apply (RequestErrorHandle_message_not_empty Json.codec "secret" (unauthorized "secret")).
  run.
Defined.

(** ** Token refresh and GetToken *)
Section RefreshExtras.
Import OAuth.
#[local] Open Scope Z_scope.

Variable w : World.
Variable maxRetries : Z.

Lemma tries_app (a b : list Effect) : tries (a ++ b) = tries a ++ tries b.
Proof. apply omap_app. Qed.

Lemma tries_pass attempt : tries (pass attempt) = [attempt].
Proof. unfold pass. by destruct (0 <? attempt)%nat. Qed.


Lemma refreshLoop_tries_bound fuel : ∀ attempt c lastErr,
  (length (tries (refreshLoop w maxRetries fuel attempt c lastErr).2) ≤ fuel)%nat.
Proof.
  induction fuel as [|fuel IH]; intros attempt c lastErr; [done|].
  cbn [refreshLoop]. fold (pass attempt).
  assert (Hnext : ∀ e,
    (length (tries
       (let '(c', r, tr) := refreshLoop w maxRetries fuel (S attempt) c (Some e) in
        (c', r, (if (0 <? attempt)%nat then [Sleep (backoff attempt)] else [])
                ++ Try attempt :: tr)).2) ≤ S fuel)%nat).
  { intros e. specialize (IH (S attempt) c (Some e)).
    destruct (refreshLoop w maxRetries fuel (S attempt) c (Some e)) as [[c' r] tr].
    simpl in *. rewrite tries_app. destruct (0 <? attempt)%nat; simpl; lia. }
  assert (Hlast : (length (tries
       ((if (0 <? attempt)%nat then [Sleep (backoff attempt)] else [])
        ++ [Try attempt])) ≤ S fuel)%nat).
  { rewrite tries_app. destruct (0 <? attempt)%nat; simpl; lia. }
  destruct (endpoint w attempt) as [ | | |st body]; try apply Hnext.
  destruct (negb (st =? StatusOK)).
  - destruct (unmarshalError w body) as [errResp|]; [|apply Hnext].
    destruct (isNonRetryableError (Error errResp)); [apply Hlast|apply Hnext].
  - destruct (unmarshalResponse w body); [apply Hlast|apply Hnext].
Qed.


(** X12. The backoff before a retry: one second doubled at every retry
    for the first five, thirty seconds from the sixth to the thirty-fourth,
    and never more than thirty seconds. From the thirty-fifth retry on the
    product leaves the range of time.Duration: the thirty-fifth backoff is
    negative, a sleep that returns at once. *)
Theorem backoff_bounds (attempt : nat) :
  backoff attempt ≤ 30 * Second ∧
  ((1 ≤ attempt ≤ 5)%nat → backoff attempt = 2 ^ Z.of_nat (attempt - 1) * Second) ∧
  ((6 ≤ attempt ≤ 34)%nat → backoff attempt = 30 * Second) ∧
  backoff 35 < 0.
Proof.
  split; [|split; [|split]].
  - unfold backoff. set (b := int64 _).
    destruct (Z.ltb_spec (30 * Second) b); lia.
  - intros H.
    assert (attempt ∈ seq 1 5) as Hin by (apply elem_of_seq; lia).
    clear H. revert attempt Hin. apply Forall_forall. by repeat constructor.
  - intros H.
    assert (attempt ∈ seq 6 29) as Hin by (apply elem_of_seq; lia).
    clear H. revert attempt Hin. apply Forall_forall. by repeat constructor.
  - done.
Qed.

End RefreshExtras.


Section TokenExtras.
Import OAuth Token.
#[local] Open Scope Z_scope.

Variable w : World.

Lemma cacheDuration_bounds clock c :
  0 < cacheDuration clock c ≤ 55 * Minute.
Proof.
  unfold cacheDuration, Minute. destruct (ExpiresAt c) as [expiresAt|]; [|lia].
  destruct (Z.ltb_spec 0 (expiresAt - clock)); simpl; [|lia].
  destruct (Z.ltb_spec (expiresAt - clock) (55 * 60)); lia.
Qed.

(** X13. GetToken reaches the token endpoint only when it has to: the
    credentials have an access token and a refresh token, the cache holds no
    token for the channel, and the token expires within three minutes (or
    has no expiry). Then it makes at most four attempts. With a static token,
    a cached token or a token that is still good, nothing is sent. *)
Theorem GetToken_refreshes_only_when_needed
    (clock later : Z) (cachedToken : string)
    (Credentials : option OAuth2Credentials) :
  let out := GetToken w clock later cachedToken Credentials in
  (length (tries (effects out)) ≤ 4)%nat ∧
  (effects out ≠ [] →
   ∃ c, Credentials = Some c ∧ AccessToken c ≠ "" ∧ RefreshToken c ≠ "" ∧
        cachedToken = "" ∧ IsExpired clock c = true).
Proof.
  unfold GetToken. destruct Credentials as [c|]; simpl; [|by split; [lia|]].
  destruct (String.eqb_spec (AccessToken c) "") as [|Ha]; simpl; [by split; [lia|]|].
  destruct (String.eqb_spec (RefreshToken c) "") as [|Hr]; simpl; [by split; [lia|]|].
  destruct (String.eqb_spec cachedToken "") as [Hc|]; simpl; [|by split; [lia|]].
  destruct (IsExpired clock c) eqn:Hexpired; simpl; [|by split; [lia|]].
  pose proof (refreshLoop_tries_bound w 3 (Z.to_nat (3 + 1)) 0 c None) as Hbound.
  unfold Refresh. destruct (String.eqb_spec (RefreshToken c) "") as [|_]; [done|].
  destruct (refreshLoop w 3 (Z.to_nat (3 + 1)) 0 c None) as [[c' [err|]] tr];
    simpl in *; (split; [exact Hbound|]); intros _; by exists c.
Qed.

(** X14. What GetToken writes to the token cache is the token it returns,
    for a time that is positive and at most 55 minutes. *)
Theorem GetToken_cache_entry
    (clock later : Z) (cachedToken : string)
    (Credentials : option OAuth2Credentials) (token : string) (duration : Z) :
  cacheWrite (GetToken w clock later cachedToken Credentials) = Some (token, duration) →
  returned (GetToken w clock later cachedToken Credentials) = inr token ∧
  0 < duration ≤ 55 * Minute.
Proof.
  unfold GetToken. destruct Credentials as [c|]; simpl; [|done].
  destruct (String.eqb (AccessToken c) ""); simpl; [done|].
  destruct (String.eqb (RefreshToken c) ""); simpl; [done|].
  destruct (negb (String.eqb cachedToken "")); simpl; [done|].
  destruct (IsExpired clock c); simpl.
  - destruct (Refresh w c 3) as [[c' [err|]] tr]; simpl; [done|].
    intros [= <- <-]. split; [done|]. apply cacheDuration_bounds.
  - intros [= <- <-]. split; [done|]. apply cacheDuration_bounds.
Qed.

Variable FromJSON : string → option OAuth2Credentials.

(** X15. A channel key that is no JSON document is the bearer token itself,
    trimmed: GetToken returns it without any refresh, cache entry or write to
    the database, whatever the cache holds; a key of white space only makes
    GetToken fail for an empty access token. *)
Theorem GetToken_plain_key
    (clock clock' later : Z) (cachedToken Key : string) :
  Key ≠ "" →
  FromJSON (Strings.TrimSpace Key) = None →
  let out :=
    GetToken w clock later cachedToken (parseCodexConfig w FromJSON clock' Key) in
  returned out
  = (if String.eqb (Strings.TrimSpace Key) "" then inl AccessTokenEmpty
     else inr (Strings.TrimSpace Key)) ∧
  effects out = [] ∧ cacheWrite out = None ∧ saved out = false.
Proof.
  intros Hkey Hjson. unfold parseCodexConfig.
  destruct (String.eqb_spec Key "") as [|_]; [done|]. rewrite Hjson.
  unfold GetToken. simpl.
  by destruct (String.eqb (Strings.TrimSpace Key) "").
Qed.

(** X16. JSON credentials with a refresh token and no expiry are given one
    hour from the moment they are parsed: for the next 57 minutes GetToken
    (with an empty cache) returns their access token without a refresh and
    puts it in the cache. The client id of parsed credentials is never
    empty. *)
Theorem GetToken_without_expiry
    (clock clock' later : Z) (Key : string) (creds : OAuth2Credentials) :
  Key ≠ "" →
  FromJSON (Strings.TrimSpace Key) = Some creds →
  AccessToken creds ≠ "" → RefreshToken creds ≠ "" → ExpiresAt creds = None →
  clock ≤ clock' + 57 * Minute →
  ∃ c,
    parseCodexConfig w FromJSON clock' Key = Some c ∧
    ClientID c ≠ "" ∧ ExpiresAt c = Some (clock' + 1 * Hour) ∧
    let out := GetToken w clock later "" (Some c) in
    returned out = inr (AccessToken creds) ∧ effects out = [] ∧
    cacheWrite out = Some (AccessToken creds, cacheDuration later c).
Proof.
  intros Hkey Hjson Ha Hr He Hclock. unfold parseCodexConfig.
  destruct (String.eqb_spec Key "") as [|_]; [done|]. rewrite Hjson.
  eexists. split; [done|]. simpl. rewrite He.
  destruct (String.eqb_spec (RefreshToken creds) "") as [|_]; [done|]. simpl.
  split; [by destruct (String.eqb_spec (ClientID creds) "")|]. split; [done|].
  unfold GetToken. simpl.
  destruct (String.eqb_spec (AccessToken creds) "") as [|_]; [done|].
  destruct (String.eqb_spec (RefreshToken creds) "") as [|_]; [done|]. simpl.
  unfold IsExpired. simpl.
  destruct (Z.ltb_spec (clock' + 1 * Hour) (clock + 3 * Minute)) as [Hlt|_];
    [unfold Hour, Minute in *; lia|].
  done.
Qed.

End TokenExtras.

Lemma GetToken_cache_entry_witness :
  Token.returned (Token.GetToken recovering 0 0 "" (Some (expiringAt 600))) = inr "at" ∧
  (0 < 600 ≤ 55 * Token.Minute)%Z.
Proof.
  apply (GetToken_cache_entry recovering 0 0 "" (Some (expiringAt 600)) "at" 600).
  reflexivity.
Defined.

Lemma GetToken_plain_key_witness :
  let out :=
    Token.GetToken recovering 0 0 "cached"
      (Token.parseCodexConfig recovering (λ _, None) 0 " sk-plain ") in
  Token.returned out = inr "sk-plain" ∧
  Token.effects out = [] ∧ Token.cacheWrite out = None ∧ Token.saved out = false.
Proof.
  refine (GetToken_plain_key recovering (λ _, None) 0 0 0 "cached" " sk-plain " _ _).
  - discriminate.
  - reflexivity.
Defined.

Lemma GetToken_without_expiry_witness :
  ∃ c,
    Token.parseCodexConfig recovering (λ _, Some OAuth.sampleCredentials) 0 "{}" = Some c ∧
    OAuth.ClientID c ≠ "" ∧ OAuth.ExpiresAt c = Some (0 + 1 * Token.Hour)%Z ∧
    let out := Token.GetToken recovering 3420 3420 "" (Some c) in
    Token.returned out = inr "at" ∧ Token.effects out = [] ∧
    Token.cacheWrite out = Some ("at", Token.cacheDuration 3420 c).
Proof.
  refine (GetToken_without_expiry recovering (λ _, Some OAuth.sampleCredentials)
            3420 0 3420 "{}" OAuth.sampleCredentials _ _ _ _ _ _).
  - discriminate.
  - reflexivity.
  - discriminate.
  - discriminate.
  - reflexivity.
  - by vm_compute.
Defined.

(** ** Further properties of the merge engine *)
Section MergeExtras.
Import Base.

(** X17. DeepMergeMap, key by key: an entry of [existing] with no
    counterpart in [new] is kept; where both have maps the result has their
    deep merge; in every other case the entry of [new] wins. The keys of the
    result are those of the two maps. *)
Theorem DeepMergeMap_at_key (existing new : gmap string Value) (k : string) :
  (new !! k = None → DeepMergeMap existing new !! k = existing !! k) ∧
  (∀ existingMap newMap,
     existing !! k = Some (Object existingMap) → new !! k = Some (Object newMap) →
     DeepMergeMap existing new !! k = Some (Object (DeepMergeMap existingMap newMap))) ∧
  (∀ newValue,
     new !! k = Some newValue →
     isObject newValue = false ∨ isObjectAt (existing !! k) = false →
     DeepMergeMap existing new !! k = Some newValue) ∧
  dom (DeepMergeMap existing new) = dom existing ∪ dom new.
Proof.
  split; [|split; [|split]].
  - intros Hk. by rewrite DeepMergeMap_lookup, Hk.
  - intros existingMap newMap He Hn. by rewrite DeepMergeMap_lookup, He, Hn.
  - intros newValue Hn Hleaf. rewrite DeepMergeMap_lookup, Hn. unfold mergeAt.
    destruct (existing !! k) as [[| | | | |existingMap]|]; try done.
    destruct newValue; try done. by destruct Hleaf.
  - apply set_eq. intros x. rewrite elem_of_union, !elem_of_dom.
    rewrite DeepMergeMap_lookup. unfold mergeAt.
    destruct (new !! x) as [newValue|] eqn:En.
    + split; [intros _; right; by eexists|intros _].
      destruct (existing !! x) as [[| | | | |existingMap]|]; try by eexists.
      destruct newValue; by eexists.
    + split; [by left|]. intros [H|[? ?]]; done.
Qed.

(** X18. The empty map is neutral on both sides of DeepMergeMap, a map
    merged into itself is itself, and merging the same map a second time
    into a result changes nothing. *)
Theorem DeepMergeMap_neutral_and_idempotent (existing new : gmap string Value) :
  DeepMergeMap ∅ new = new ∧
  DeepMergeMap existing ∅ = existing ∧
  DeepMergeMap new new = new ∧
  DeepMergeMap (DeepMergeMap existing new) new = DeepMergeMap existing new.
Proof.
  assert (Hagain : ∀ e, DeepMergeMap (DeepMergeMap e new) new = DeepMergeMap e new).
  { intros e. apply between_merge, between_refl. }
  split; [apply DeepMergeMap_empty_l|]. split; [apply DeepMergeMap_empty_r|].
  split; [|apply Hagain].
  specialize (Hagain ∅). by rewrite !DeepMergeMap_empty_l in Hagain.
Qed.

Lemma splitByte_nonempty sep s : ∀ cur, Strings.splitByte sep cur s ≠ [].
Proof.
  induction s as [|c s IH]; intros cur; simpl; [done|].
  destruct (Ascii.eqb c sep); [done|apply IH].
Qed.

Lemma lookupPath_removed parts : ∀ current,
  parts ≠ [] → lookupPath parts (Object (removeParts parts current)) = None.
Proof.
  induction parts as [|part parts IH]; intros current Hne; [done|].
  destruct parts as [|part' parts'].
  - rewrite removeParts_last. cbn [lookupPath]. by rewrite lookup_delete_eq.
  - rewrite removeParts_next. cbn [lookupPath].
    destruct (current !! part) as [[| | | | |next]|] eqn:E; rewrite ?E; try done.
    rewrite lookup_insert_eq. simpl. by apply IH.
Qed.

(** X19. After removeNestedParam the path leads nowhere: walking the body
    along the parts of the path finds no value. Entries of the body at keys
    other than the first part of the path are as they were, and no key is
    added. *)
Theorem removeNestedParam_removes (requestMap : gmap string Value) (paramPath : string) :
  lookupPath (Strings.Split paramPath ".")
    (Object (removeNestedParam requestMap paramPath)) = None ∧
  (∀ k, head (Strings.Split paramPath ".") ≠ Some k →
        removeNestedParam requestMap paramPath !! k = requestMap !! k) ∧
  dom (removeNestedParam requestMap paramPath) ⊆ dom requestMap.
Proof.
  unfold removeNestedParam. split; [|split].
  - apply lookupPath_removed, splitByte_nonempty.
  - intros k. apply removeParts_other.
  - intros k. rewrite !elem_of_dom. intros [v Hv].
    destruct (requestMap !! k) eqn:E; [done|].
    by rewrite removeParts_None in Hv.
Qed.

(** X20. Removals do not depend on their order, and a removal done twice is
    a removal done once. *)
Theorem removeNestedParam_order (requestMap : gmap string Value) (p q : string) :
  removeNestedParam (removeNestedParam requestMap p) q
  = removeNestedParam (removeNestedParam requestMap q) p ∧
  removeNestedParam (removeNestedParam requestMap p) p = removeNestedParam requestMap p.
Proof.
  unfold removeNestedParam. split; [apply removeParts_comm|apply removeParts_idem].
Qed.

(** X21. With overwrite set, every parameter of the model's set other than
    the four control keys is in the final body with the value the set gives
    it, whatever the body had there and whatever was removed. *)
Theorem ApplyCustomParams_overwrite
    (requestMap customParams : gmap string Value) (modelName : string)
    (skipPreAddCheck : bool) (k : string) (v : Value) :
  applies customParams skipPreAddCheck = true →
  flag customParams "overwrite" = true →
  paramsForModel customParams modelName !! k = Some v →
  ignoredKey k = false →
  ApplyCustomParams requestMap customParams modelName skipPreAddCheck !! k = Some v.
Proof.
  intros Happ Hover Hk Hignored.
  rewrite ApplyCustomParams_lookup by done. unfold addAt.
  by rewrite Hk, Hignored, Hover.
Qed.

(** X22. Without overwrite, an entry of the body that is no map and that no
    removal path starts at is never replaced: the parameter set cannot change
    a scalar, string, list or null the request came with. *)
Theorem ApplyCustomParams_keeps_existing
    (requestMap customParams : gmap string Value) (modelName : string)
    (skipPreAddCheck : bool) (k : string) (existingValue : Value) :
  flag customParams "overwrite" = false →
  requestMap !! k = Some existingValue →
  isObject existingValue = false →
  Forall (λ parts, head parts ≠ Some k)
    (removePaths (paramsForModel customParams modelName)) →
  ApplyCustomParams requestMap customParams modelName skipPreAddCheck !! k
  = Some existingValue.
Proof.
  intros Hover Hk Hleaf Hpaths.
  destruct (applies customParams skipPreAddCheck) eqn:Happ.
  - rewrite ApplyCustomParams_lookup by done.
    rewrite removeParams_as_paths, removePaths_other by done.
    rewrite Hk, Hover. unfold addAt.
    destruct (paramsForModel customParams modelName !! k); [|done].
    destruct (ignoredKey k); [done|]. by destruct existingValue.
  - unfold applies in Happ. unfold ApplyCustomParams.
    destruct (negb skipPreAddCheck && flag customParams "pre_add"); [|done].
    by destruct (decide (customParams = ∅)).
Qed.

(** X23. With per_model set and no map of parameters under the model's
    name, the body is returned as it came: nothing is removed and nothing is
    added, the set's top-level parameters included. *)
Theorem ApplyCustomParams_per_model_without_entry
    (requestMap customParams : gmap string Value) (modelName : string)
    (skipPreAddCheck : bool) :
  flag customParams "per_model" = true →
  (∀ modelConfig, customParams !! modelName ≠ Some (Object modelConfig)) →
  ApplyCustomParams requestMap customParams modelName skipPreAddCheck = requestMap.
Proof.
  intros Hper Hmodel. unfold ApplyCustomParams.
  destruct (decide (customParams = ∅)); [done|].
  destruct (negb skipPreAddCheck && flag customParams "pre_add"); [done|].
  assert (paramsForModel customParams modelName = ∅) as ->.
  { unfold paramsForModel. rewrite Hper.
    destruct (customParams !! modelName) as [[| | | | |modelConfig]|] eqn:E; try done.
    by destruct (Hmodel modelConfig). }
  unfold removeParams. rewrite lookup_empty. apply map_fold_empty.
Qed.

(** X24. A key that is no parameter of the model's set and at which no
    removal path starts has in the final body the entry the body came with. *)
Theorem ApplyCustomParams_other_keys
    (requestMap customParams : gmap string Value) (modelName : string)
    (skipPreAddCheck : bool) (k : string) :
  paramsForModel customParams modelName !! k = None →
  Forall (λ parts, head parts ≠ Some k)
    (removePaths (paramsForModel customParams modelName)) →
  ApplyCustomParams requestMap customParams modelName skipPreAddCheck !! k
  = requestMap !! k.
Proof.
  intros Hk Hpaths.
  destruct (applies customParams skipPreAddCheck) eqn:Happ.
  - rewrite ApplyCustomParams_lookup by done.
    rewrite removeParams_as_paths, removePaths_other by done.
    by rewrite Hk.
  - unfold applies in Happ. unfold ApplyCustomParams.
    destruct (negb skipPreAddCheck && flag customParams "pre_add"); [|done].
    by destruct (decide (customParams = ∅)).
Qed.

End MergeExtras.

Lemma ApplyCustomParams_overwrite_witness :
  Base.ApplyCustomParams scalarBody overwriting "gpt-5" false !! "a"
  = Some (Base.Object {[ "b" := Base.Number 1 ]}).
Proof.
  apply ApplyCustomParams_overwrite; run.
Defined.

Lemma ApplyCustomParams_keeps_existing_witness :
  Base.ApplyCustomParams temperatureBody setStream "gpt-5" false !! "temperature"
  = Some (Base.Number 0).
Proof.
  apply ApplyCustomParams_keeps_existing; [run|run|run|].
  repeat constructor; discriminate.
Defined.

Lemma ApplyCustomParams_per_model_without_entry_witness :
  Base.ApplyCustomParams temperatureBody perModel "gpt-5" false = temperatureBody.
Proof.
  apply ApplyCustomParams_per_model_without_entry; [run|].
  intros modelConfig. assert (perModel !! "gpt-5" = None) as -> by run.
  discriminate.
Defined.

Lemma ApplyCustomParams_other_keys_witness :
  Base.ApplyCustomParams streamingBody setStream "gpt-5" false !! "model"
  = streamingBody !! "model".
Proof.
  apply ApplyCustomParams_other_keys; [run|].
  repeat constructor; discriminate.
Defined.

(** ** The chat stream, chunk by chunk *)
Section ChatStreamExtras.
Import Codex.

Variable J : JSON.

Lemma collectChunk_content acc chunk :
  fullContent (collectChunk acc chunk) = fullContent acc +:+ deltaOf chunk.
Proof.
  unfold collectChunk, deltaOf. destruct (cs_Choices chunk) as [|choice choices]; simpl.
  - by rewrite string_app_nil_r.
  - destruct (String.eqb_spec (sc_DeltaContent choice) "") as [->|_]; simpl; [|done].
    by rewrite string_app_nil_r.
Qed.

Lemma collectStreamLoop_datas created usage datas : ∀ acc recvs,
  ∃ acc',
    collectStreamLoop J created usage acc (map RecvData datas ++ recvs)
    = collectStreamLoop J created usage acc' recvs ∧
    fullContent acc'
    = fullContent acc
      +:+ foldr (λ chunk text, deltaOf chunk +:+ text) ""
            (omap (unmarshalChatStream J) datas).
Proof.
  induction datas as [|data datas IH]; intros acc recvs.
  { exists acc. by rewrite string_app_nil_r. }
  cbn [map app collectStreamLoop omap list_omap].
  destruct (unmarshalChatStream J data) as [chunk|]; [|apply IH].
  destruct (IH (collectChunk acc chunk) recvs) as (acc' & -> & Hcontent).
  exists acc'. split; [done|]. cbn [foldr].
  by rewrite Hcontent, collectChunk_content, string_app_assoc.
Qed.

(** X25. The content of the aggregated chat response is the content deltas
    of the chunks received, in the order received: each delivery that decodes
    contributes the delta of its first choice, a delivery that does not
    decode contributes nothing, and the stream may end by io.EOF or by the
    data channel being closed. The usage and creation time are the
    provider's counters and the clock. *)
Theorem collectStreamResponse_content
    (created : Z) (usage : Usage) (requestModel : string)
    (datas : list string) (last : Recv) (rest : list Recv) :
  endsStream last = true →
  ∃ response,
    collectStreamResponse J created usage requestModel
      (map RecvData datas ++ last :: rest) = Some (Built response) ∧
    messageContent response
    = Some (foldr (λ chunk text, deltaOf chunk +:+ text) ""
              (omap (unmarshalChatStream J) datas)) ∧
    cr_Usage response = usage ∧ cr_Created response = created.
Proof.
  intros Hlast. unfold collectStreamResponse.
  destruct (collectStreamLoop_datas created usage datas
              {| fullContent := ""; responseID := ""; model := requestModel;
                 finishReason := "stop" |} (last :: rest)) as (acc' & -> & Hcontent).
  exists (buildResponse created usage acc'). split.
  - destruct last as [data| |[e|]|]; try done. simpl in *. by rewrite Hlast.
  - unfold messageContent, buildResponse. cbn [cr_Choices cc_Content cr_Usage cr_Created].
    rewrite Hcontent. repeat split; reflexivity.
Qed.

(** X26. One line through the chat handler does one of three things: it
    sends nothing and leaves the usage counters alone; it sends one chunk,
    for a data line that carries a content delta, and leaves the counters
    alone; or it sends nothing and takes the counters from a completed
    event. A line that is no data line, the [DONE] sentinel and a payload
    that does not decode are of the first kind. *)
Theorem HandlerStream_one_line
    (requestModel : string) (usage : Usage) (rawLine : option string) :
  HandlerStream J requestModel usage rawLine = (usage, [])
  ∨ (∃ line event delta responseBody,
       rawLine = Some line ∧ carries J line event ∧
       rs_Type event = "response.output_text.delta" ∧ rs_Delta event = AnyStr delta ∧
       marshalChatStream J (convertResponsesStreamToChatStream requestModel event delta)
       = Some responseBody ∧
       HandlerStream J requestModel usage rawLine = (usage, [responseBody]))
  ∨ (∃ line event response,
       rawLine = Some line ∧ carries J line event ∧
       completedResponse event = Some response ∧
       HandlerStream J requestModel usage rawLine = (copyUsage usage response, [])).
Proof.
  unfold HandlerStream. destruct rawLine as [line|]; [|by left].
  destruct (String.eqb line ""); [by left|].
  destruct (Strings.HasPrefix line "data:") eqn:Hprefix; simpl; [|by left].
  fold (payload line).
  destruct (String.eqb_spec (payload line) "[DONE]") as [|Hdone]; [by left|].
  destruct (unmarshalResponsesStream J (payload line)) as [event|] eqn:Hevent;
    [|by left].
  assert (carries J line event) as Hcarries by done.
  destruct (completedResponse event) as [response|] eqn:Hcompleted.
  { right. right. by exists line, event, response. }
  destruct (String.eqb_spec (rs_Type event) "response.output_text.delta") as [Htype|_];
    [|by left].
  destruct (rs_Delta event) as [|delta|] eqn:Hdelta; try by left.
  destruct (marshalChatStream J _) as [responseBody|] eqn:Hbody; [|by left].
  right. left. by exists line, event, delta, responseBody.
Qed.

End ChatStreamExtras.

Section HeaderExtras.
Import Codex.

Variable J : JSON.

Lemma passthrough_ext get get' keys : ∀ headers,
  (∀ k, k ∈ keys → get k = get' k) →
  passthrough get keys headers = passthrough get' keys headers.
Proof.
  induction keys as [|key keys IH]; intros headers Hkeys; [done|].
  cbn [passthrough]. rewrite (Hkeys key) by by left.
  apply IH. intros k Hk. apply Hkeys. by right.
Qed.

(** X27. Of the inbound request, the outbound headers depend on six headers
    only: the four of the allow-list, Content-Type and Accept. Two inbound
    requests that agree on these get the same outbound headers; no other
    client header, a client's Authorization or Cookie among them, reaches the
    upstream or changes what is sent. *)
Theorem requestHeaders_reads_six_headers
    (p : Provider) (get get' : string → string) (token : option string)
    (stream : bool) :
  (∀ k, k ∈ allowedKeys ++ ["Content-Type"; "Accept"] → get k = get' k) →
  requestHeaders J (withContext p get) token stream
  = requestHeaders J (withContext p get') token stream.
Proof.
  intros Hkeys.
  unfold requestHeaders, getRequestHeadersInternal, earlyHeaders,
    CommonRequestHeaders, filterAndPassthroughClientHeaders.
  cbn [withContext Context channel AccountID].
  rewrite (passthrough_ext get get') by (intros k Hk; apply Hkeys; set_solver).
  rewrite (Hkeys "Accept"), (Hkeys "Content-Type") by set_solver.
  done.
Qed.

End HeaderExtras.

Lemma collectStreamResponse_content_witness :
  ∃ response,
    Codex.collectStreamResponse Json.codec 0 Codex.zeroUsage "gpt-5"
      (map Codex.RecvData ["{}"; "not json"] ++ Codex.RecvDataClosed :: [])
    = Some (Codex.Built response) ∧
    Codex.messageContent response
    = Some (foldr (λ chunk text, Codex.deltaOf chunk +:+ text) ""
              (omap (Codex.unmarshalChatStream Json.codec) ["{}"; "not json"])) ∧
    Codex.cr_Usage response = Codex.zeroUsage ∧ Codex.cr_Created response = 0%Z.
Proof.
  apply collectStreamResponse_content. reflexivity.
Defined.

Lemma requestHeaders_reads_six_headers_witness :
  Codex.requestHeaders Json.codec
    (Codex.withContext overridingProvider
       (λ k, if String.eqb k "Authorization" then "Bearer stolen" else ""))
    (Some "T") true
  = Codex.requestHeaders Json.codec
      (Codex.withContext overridingProvider (λ _, "")) (Some "T") true.
Proof.
  apply requestHeaders_reads_six_headers.
  intros k Hk.
  assert (String.eqb k "Authorization" = false) as ->; [|done].
  apply String.eqb_neq. intros ->. set_solver.
Defined.

(** ** The preparation of a Responses request *)
Section RequestExtras.
Import Codex.

Variable parseOther : string → option (list InputResponses).
Variable CodexCLIInstructions : string.

#[local] Abbreviation prepare := (prepareCodexRequest parseOther CodexCLIInstructions).

Lemma request_eq (a b : OpenAIResponsesRequest) :
  q_Model a = q_Model b → q_Store a = q_Store b →
  q_Temperature a = q_Temperature b → q_TopP a = q_TopP b →
  q_MaxOutputTokens a = q_MaxOutputTokens b →
  q_Instructions a = q_Instructions b → q_Input a = q_Input b →
  q_Stream a = q_Stream b → a = b.
Proof. destruct a, b; simpl; by intros -> -> -> -> -> -> -> ->. Qed.

#[local] Ltac fields :=
  unfold prepareCodexRequest, adaptCodexCLI, mergeSystemInputMessages, ParseInput,
    mergedInput, preferTemperature;
  cbn [q_Instructions q_Model q_Store q_Temperature q_TopP q_MaxOutputTokens
       q_Input q_Stream];
  repeat case_match; simplify_eq/=; try done.

Lemma prepared_Model r : q_Model (prepare r) = normalizedModel (q_Model r).
Proof. fields. Qed.

Lemma prepared_Store r : q_Store (prepare r) = Some false.
Proof. fields. Qed.

Lemma prepared_Stream r : q_Stream (prepare r) = q_Stream r.
Proof. fields. Qed.

Lemma prepared_Instructions r :
  q_Instructions (prepare r)
  = if isCodexCLI (q_Instructions r) then q_Instructions r else CodexCLIInstructions.
Proof. fields. Qed.

Lemma prepared_Temperature r :
  q_Temperature (prepare r)
  = if isCodexCLI (q_Instructions r) then q_Temperature r else None.
Proof. fields. Qed.

Lemma prepared_TopP r :
  q_TopP (prepare r)
  = if isCodexCLI (q_Instructions r)
    then preferTemperature (q_Temperature r) (q_TopP r) else None.
Proof. fields. Qed.

Lemma prepared_MaxOutputTokens r :
  q_MaxOutputTokens (prepare r)
  = if isCodexCLI (q_Instructions r) then q_MaxOutputTokens r else 0%Z.
Proof. fields. Qed.

Lemma prepared_Input r :
  q_Input (prepare r)
  = if isCodexCLI (q_Instructions r) then q_Input r
    else mergedInput parseOther (q_Input r).
Proof. fields. Qed.

Lemma normalizedModel_idempotent Model :
  normalizedModel (normalizedModel Model) = normalizedModel Model.
Proof.
  unfold normalizedModel at 2 3.
  destruct (_ && _ && _) eqn:E; [done|]. unfold normalizedModel. by rewrite E.
Qed.

Lemma mergedInput_idempotent input :
  mergedInput parseOther (mergedInput parseOther input) = mergedInput parseOther input.
Proof.
  unfold mergedInput at 2 3. unfold mergeSystemInputMessagesForCodex.
  destruct (match input with
            | InputItems items => Some items
            | InputOther raw => parseOther raw
            end) as [[|first inputs]|] eqn:E.
  - unfold mergedInput, mergeSystemInputMessagesForCodex. by rewrite E.
  - unfold mergedInput, mergeSystemInputMessagesForCodex.
    destruct (mergeInputs (first :: inputs)) as [|m ms] eqn:Em; [done|].
    rewrite <- Em.
    by rewrite (mergeInputs_without_system (mergeInputs (first :: inputs)))
      by apply mergeInputs_no_system.
  - unfold mergedInput, mergeSystemInputMessagesForCodex. by rewrite E.
Qed.

(** X28. Preparing a prepared request changes nothing: the model name, the
    store flag, the sampling parameters, the instructions and the merged
    input are all settled by the first preparation, whatever the default
    instructions are and however an input that is no list is parsed. *)
Theorem prepareCodexRequest_idempotent (request : OpenAIResponsesRequest) :
  prepareCodexRequest parseOther CodexCLIInstructions
    (prepareCodexRequest parseOther CodexCLIInstructions request)
  = prepareCodexRequest parseOther CodexCLIInstructions request.
Proof.
  apply request_eq.
  - by rewrite !prepared_Model, normalizedModel_idempotent.
  - by rewrite !prepared_Store.
  - rewrite !prepared_Temperature, prepared_Instructions.
    destruct (isCodexCLI (q_Instructions request)) eqn:E; [by rewrite E|].
    by destruct (isCodexCLI CodexCLIInstructions).
  - rewrite !prepared_TopP, prepared_Instructions, prepared_Temperature.
    destruct (isCodexCLI (q_Instructions request)) eqn:E.
    + rewrite E. by destruct (q_Temperature request), (q_TopP request).
    + by destruct (isCodexCLI CodexCLIInstructions).
  - rewrite !prepared_MaxOutputTokens, prepared_Instructions.
    destruct (isCodexCLI (q_Instructions request)) eqn:E; [by rewrite E|].
    by destruct (isCodexCLI CodexCLIInstructions).
  - rewrite !prepared_Instructions.
    destruct (isCodexCLI (q_Instructions request)) eqn:E; [by rewrite E|].
    by destruct (isCodexCLI CodexCLIInstructions).
  - rewrite !prepared_Input, prepared_Instructions.
    destruct (isCodexCLI (q_Instructions request)) eqn:E; [by rewrite E|].
    destruct (isCodexCLI CodexCLIInstructions); [done|].
    apply mergedInput_idempotent.
  - by rewrite !prepared_Stream.
Qed.

(** X29. What a prepared request looks like. The store flag is false and
    temperature and top_p are never both set. A request of the Codex CLI
    (instructions longer than 50 bytes that start with one of the two CLI
    openings) keeps its instructions, input and output limit. Any other
    request has no temperature, no top_p and no output limit, carries the
    default instructions, and its input, when it parses to a list that is
    not empty, holds no system or developer message. A gpt-5 variant other
    than gpt-5-codex is sent as gpt-5; every other model name is kept. *)
Theorem prepareCodexRequest_settings (request : OpenAIResponsesRequest) :
  let prepared := prepareCodexRequest parseOther CodexCLIInstructions request in
  q_Store prepared = Some false ∧
  (q_Temperature prepared = None ∨ q_TopP prepared = None) ∧
  (isCodexCLI (q_Instructions request) = true →
   q_Instructions prepared = q_Instructions request ∧
   q_Input prepared = q_Input request ∧
   q_MaxOutputTokens prepared = q_MaxOutputTokens request ∧
   q_Temperature prepared = q_Temperature request) ∧
  (isCodexCLI (q_Instructions request) = false →
   q_Instructions prepared = CodexCLIInstructions ∧
   q_Temperature prepared = None ∧ q_TopP prepared = None ∧
   q_MaxOutputTokens prepared = 0%Z ∧
   ∀ first inputs,
     ParseInput parseOther request = Some (first :: inputs) →
     ∃ merged, q_Input prepared = InputItems merged ∧
               merged = mergeInputs (first :: inputs) ∧
               Forall (λ input, isSystemInputMessage input = false) merged) ∧
  (q_Model prepared = "gpt-5" ∨ q_Model prepared = q_Model request) ∧
  (Strings.HasPrefix (q_Model prepared) "gpt-5-" = true →
   q_Model prepared = "gpt-5-codex" ∨ q_Model prepared = "gpt-5-").
Proof.
  cbv zeta. rewrite prepared_Store, prepared_Temperature, prepared_TopP,
    prepared_Instructions, prepared_Input, prepared_MaxOutputTokens, prepared_Model.
  split; [done|]. split; [|split; [|split; [|split]]].
  - destruct (isCodexCLI _); [|by left]. unfold preferTemperature.
    destruct (q_Temperature request), (q_TopP request); by (left + right).
  - by intros ->.
  - intros ->. repeat split; try done.
    intros first inputs Hparse. unfold mergedInput. unfold ParseInput in Hparse.
    rewrite Hparse. cbn [mergeSystemInputMessagesForCodex].
    eexists. split; [done|]. split; [done|]. apply mergeInputs_no_system.
  - unfold normalizedModel. destruct (_ && _ && _); by (left + right).
  - unfold normalizedModel.
    destruct ((6 <? String.length (q_Model request))%nat) eqn:Hlen; cbn [andb].
    + destruct (String.eqb (Strings.sliceTo 6 (q_Model request)) "gpt-5-") eqn:Hp;
        cbn [andb].
      * destruct (String.eqb (q_Model request) "gpt-5-codex") eqn:Hc; cbn [negb].
        -- intros _. left. by apply String.eqb_eq.
        -- intros Hprefix. by vm_compute in Hprefix.
      * intros Hprefix%HasPrefix_take. apply String.eqb_neq in Hp. destruct Hp.
        apply bytes_inj. rewrite bytes_take. exact Hprefix.
    + intros Hprefix. right. apply HasPrefix_inv in Hprefix.
      apply Nat.ltb_ge in Hlen. rewrite Hprefix, string_app_length in Hlen.
      rewrite Hprefix.
      destruct (Strings.sliceFrom (String.length "gpt-5-") (q_Model request));
        [done|simpl in Hlen; lia].
Qed.

End RequestExtras.
